(** * LangChain-Agents: human-in-the-loop agents (email, SQL, Obsidian)

    A shallow embedding of the three example agents of the repository
    ([email_agent/agent.py], [sql_agent/agent.py], [obsidian_agent/agent.py])
    and of the interrupt/resume engine their drivers talk to.

    Layout:
    - [Py]        the fragment of Python the agents rely on (str methods,
                  exceptions, a state-and-exception monad, the terminal);
    - [LangGraph] the values exchanged with [agent.invoke];
    - [Email], [Sql], [Obsidian]  one module per agent, each function
                  translated from the source function of the same name;
    - [Engine]    the execution engine, which the repository takes from a
                  library: it is modelled from the specification;
    - the properties, in the order of the modules. *)

From stdpp Require Import gmap strings list.
From Stdlib Require Import Ascii.

(** ** The Python fragment *)

Module Py.

Local Open Scope N_scope.

(** *** Strings

    A [str] is modelled as a Rocq [string]: the characters of its text, a
    character above 127 being spelled by the 8-bit units of its encoding.
    Comparison, concatenation and [startswith] are those of Python on every
    text.  The character tables below are those of Python for code points
    below 128; a unit outside that range is neither white space nor cased
    here, so [strip], [lower] and [upper] below are Python's on ASCII text
    only.  See [StrMethods] for the methods on every text. *)

Definition code (c : ascii) : N := N_of_ascii c.

(** [str.isspace] on one character: TAB, LF, VT, FF, CR, FS, GS, RS, US and
    the space. *)
Definition isspace (c : ascii) : bool :=
  ((9 <=? code c) && (code c <=? 13)) || ((28 <=? code c) && (code c <=? 32)).

Definition lower_char (c : ascii) : ascii :=
  if (65 <=? code c) && (code c <=? 90) then ascii_of_N (code c + 32) else c.

Definition upper_char (c : ascii) : ascii :=
  if (97 <=? code c) && (code c <=? 122) then ascii_of_N (code c - 32) else c.

Fixpoint map_chars (f : ascii → ascii) (s : string) : string :=
  match s with
  | EmptyString => EmptyString
  | String c s' => String (f c) (map_chars f s')
  end.

(** [s.lower()] and [s.upper()] *)
Definition lower : string → string := map_chars lower_char.
Definition upper : string → string := map_chars upper_char.

Fixpoint lstrip (s : string) : string :=
  match s with
  | EmptyString => EmptyString
  | String c s' => if isspace c then lstrip s' else s
  end.

Fixpoint rstrip (s : string) : string :=
  match s with
  | EmptyString => EmptyString
  | String c s' =>
      match rstrip s' with
      | EmptyString => if isspace c then EmptyString else String c EmptyString
      | r => String c r
      end
  end.

(** [s.strip()] *)
Definition strip (s : string) : string := rstrip (lstrip s).

(** [s.startswith(p)] *)
Definition startswith (s p : string) : bool := String.prefix p s.

(** [str.strip], [str.lower] and [str.upper] as Python has them on every
    text.  Their tables (white space and letter case of Unicode) belong to
    the Python runtime, not to the repository: the functions of the agents
    that call these methods take them as the parameter [py]. *)
Record StrMethods : Type := MkStr {
  str_strip : string → string;
  str_lower : string → string;
  str_upper : string → string
}.

(** The methods on ASCII text. *)
Definition ascii_str : StrMethods := MkStr strip lower upper.

(** [x in [s1, ..., sn]] for a list of strings *)
Definition str_in (x : string) (l : list string) : bool := bool_decide (x ∈ l).

(** [s * n] *)
Fixpoint repeat_str (s : string) (n : nat) : string :=
  match n with
  | O => ""
  | S n' => s +:+ repeat_str s n'
  end.

Definition NL : string := String (ascii_of_N 10) "".

(** [f"{x}"] for a value that is a [str] or [None] *)
Definition fmt (x : option string) : string := default "None" x.

(** [l[-1]] *)
Definition last_item {A} (l : list A) : option A := last l.

(** *** Exceptions and results

    The exceptions below are all instances of [Exception]. *)
Inductive exn : Type :=
| EOFError
| IndexError
| TypeError (msg : string)
| Exception (msg : string).

(** [str(e)] *)
Definition str_exn (e : exn) : string :=
  match e with
  | EOFError => ""
  | IndexError => "list index out of range"
  | TypeError msg => msg
  | Exception msg => msg
  end.

Inductive result (A : Type) : Type :=
| Ok (a : A)
| Raise (e : exn).
Global Arguments Ok {A} a.
Global Arguments Raise {A} e.

(** *** A state-and-exception monad *)

Definition M (St A : Type) : Type := St → result A * St.

Definition ret {St A} (a : A) : M St A := λ s, (Ok a, s).
Definition raise {St A} (e : exn) : M St A := λ s, (Raise e, s).
Definition bind {St A B} (m : M St A) (k : A → M St B) : M St B :=
  λ s, match m s with
       | (Ok a, s') => k a s'
       | (Raise e, s') => (Raise e, s')
       end.
Definition get {St} : M St St := λ s, (Ok s, s).
Definition put {St} (s : St) : M St unit := λ _, (Ok tt, s).

(** [try: m  except Exception as e: h e] *)
Definition try_except {St A} (m : M St A) (h : exn → M St A) : M St A :=
  λ s, match m s with
       | (Ok a, s') => (Ok a, s')
       | (Raise e, s') => h e s'
       end.

(** *** The terminal *)

Record Console : Type := MkConsole {
  stdin : list string;   (* the lines still to be typed *)
  stdout : list string   (* what was printed, oldest first *)
}.

Definition print (s : string) (c : Console) : Console :=
  {| stdin := stdin c; stdout := stdout c ++ [s] |}.

Definition rule (n : nat) : string := repeat_str "=" n.

(** *** More of [str], for the previews *)

(** [s[n:]] *)
Fixpoint drop_str (n : nat) (s : string) : string :=
  match n, s with
  | O, _ => s
  | S n', String _ s' => drop_str n' s'
  | S _, EmptyString => EmptyString
  end.

(** [s.replace(old, new, 1)]: the first occurrence of [old], from the left,
    is replaced. *)
Fixpoint replace_first (old new s : string) : string :=
  if String.prefix old s then new +:+ drop_str (String.length old) s
  else
    match s with
    | EmptyString => EmptyString
    | String c s' => String c (replace_first old new s')
    end.

End Py.

(** ** The two regular expressions of the SQL preview

    [re.search] is modelled for the shapes the previews use: literals
    matched with [re.IGNORECASE], [\s+] and [(\w+)].  Both repetitions are
    greedy and what follows them in the patterns never starts with a
    character of their class, so taking the longest run is what the
    backtracking matcher does. *)

Module Re.

Local Open Scope N_scope.

(** [\w] on one character: a letter, a digit or the underscore. *)
Definition isword (c : ascii) : bool :=
  ((48 <=? Py.code c) && (Py.code c <=? 57)) ||
  ((65 <=? Py.code c) && (Py.code c <=? 90)) ||
  ((97 <=? Py.code c) && (Py.code c <=? 122)) ||
  (Py.code c =? 95).

(** A literal at the head of [s], letter case ignored; what follows it. *)
Fixpoint literal (p s : string) : option string :=
  match p, s with
  | EmptyString, _ => Some s
  | String a p', String b s' =>
      if Ascii.eqb (Py.upper_char a) (Py.upper_char b) then literal p' s' else None
  | String _ _, EmptyString => None
  end.

(** [\s+] at the head of [s]; what follows the white space. *)
Definition spaces (s : string) : option string :=
  match s with
  | String c s' => if Py.isspace c then Some (Py.lstrip s') else None
  | EmptyString => None
  end.

(** The longest run of word characters at the head of [s], and the rest. *)
Fixpoint span_word (s : string) : string * string :=
  match s with
  | EmptyString => (EmptyString, EmptyString)
  | String c s' =>
      if isword c then (String c (span_word s').1, (span_word s').2)
      else (EmptyString, s)
  end.

(** [(\w+)] at the head of [s]: the group, and what follows it. *)
Definition word (s : string) : option (string * string) :=
  match span_word s with
  | (EmptyString, _) => None
  | (w, rest) => Some (w, rest)
  end.

(** [re.search]: [at_head] matches the pattern at the head of a string; the
    leftmost position where it matches wins. *)
Fixpoint search {A} (at_head : string → option A) (s : string) : option A :=
  match at_head s with
  | Some m => Some m
  | None =>
      match s with
      | EmptyString => None
      | String _ s' => search at_head s'
      end
  end.

End Re.

#[global] Instance M_ret {St} : MRet (Py.M St) := λ A, Py.ret.
#[global] Instance M_bind {St} : MBind (Py.M St) := λ A B k m, Py.bind m k.

Import Py.

(** ** What the drivers exchange with [agent.invoke] *)

Module LangGraph.

(** One entry of [value['action_requests']]: the tool call awaiting a
    decision.  [args] is the dict of its arguments. *)
Record ActionRequest : Type := MkRequest {
  name : string;
  args : gmap string string
}.

(** One element of [result['__interrupt__']]; [action_requests] is
    [.value['action_requests']]. *)
Record Interrupt : Type := MkInterrupt {
  action_requests : list ActionRequest
}.

Inductive MessageKind : Type := HumanMessage | AIMessage | ToolMessage.

Record Message : Type := MkMessage {
  kind : MessageKind;
  msg_name : option string;   (* [message.name] *)
  content : string
}.

(** The dict returned by [agent.invoke]; a key that is absent is [None]. *)
Record InvokeResult : Type := MkResult {
  interrupt : option (list Interrupt);   (* key "__interrupt__" *)
  messages : option (list Message)       (* key "messages" *)
}.

(** The first argument of [agent.invoke]: the initial messages, or
    [Command(resume={"decisions": ds})] where each decision is a dict. *)
Inductive Input : Type :=
| Start (msgs : list Message)
| Resume (decisions : list (gmap string string)).

(** One call of [agent.invoke] and what it gave. *)
Definition Call : Type := Input * result InvokeResult.

(** The decision batches of the resumes of a trace of calls. *)
Definition resume_batches (calls : list Call) : list (list (gmap string string)) :=
  omap (λ c : Call, match c.1 with Resume ds => Some ds | Start _ => None end) calls.

End LangGraph.

Import LangGraph.

(** ** email_agent/agent.py *)

Module Email.

(** *** The tools *)

Definition read_email : string :=
  NL +:+ "    From Mark@domena.com:" +:+ NL +:+
  "    Hi, Jack. " +:+ NL +:+
  "    Can we reschedule our meeting to next week?" +:+ NL +:+ "    ".

Definition send_email (recipient subject body : string) : string :=
  "Email sent to " +:+ recipient +:+ " with subject '" +:+ subject +:+
  "' and body '" +:+ body +:+ "'".

(** *** The prompt

    The [while True] loop of [get_user_decision].  Every round calls [input]
    once, so the loop is a recursion on the lines left on stdin; [input]
    raises [EOFError] when there is none. *)
Fixpoint decision_loop_with (py : StrMethods) (lines out : list string)
  : result string * Console :=
  let out := out ++ [NL +:+ "Your decision: "] in
  match lines with
  | [] => (Raise EOFError, MkConsole [] out)
  | line :: rest =>
      let decision := str_lower py (str_strip py line) in
      if str_in decision ["a"; "approve"; "yes"; "y"] then
        (Ok "approve",
         MkConsole rest (out ++ [NL +:+ "Email approved, executing..." +:+ NL]))
      else if str_in decision ["r"; "reject"; "no"; "n"] then
        (Ok "reject", MkConsole rest (out ++ [NL +:+ "Email rejected" +:+ NL]))
      else
        decision_loop_with py rest
          (out ++ ["Invalid input. Please choose: [a]pprove or [r]eject"])
  end.

Definition get_user_decision_with (py : StrMethods)
    (received_email email : string) : M Console string :=
  λ c,
    let c := print (NL +:+ "LATEST EMAIL IN INBOX:") c in
    let c := print (NL +:+ received_email) c in
    let c := print (NL +:+ rule 100) c in
    let c := print "APPROVAL REQUIRED - EMAIL SEND OPERATION" c in
    let c := print (rule 100) c in
    let c := print ("Email to send:" +:+ NL +:+ email) c in
    let c := print (rule 100) c in
    let c := print (NL +:+ "Options:") c in
    let c := print "  [a] Approve  - Send the email" c in
    let c := print "  [r] Reject   - Cancel the email" c in
    decision_loop_with py (stdin c) (stdout c).

(** The prompt on ASCII text, as the driver below and its properties use
    it. *)
Definition decision_loop : list string → list string → result string * Console :=
  decision_loop_with ascii_str.

Definition get_user_decision : string → string → M Console string :=
  get_user_decision_with ascii_str.

(** *** The driver

    [agent] is built by [create_agent] of the library; the driver is written
    against whatever [agent.invoke] does, so the agent is a parameter: a state
    and a transition on it. *)
Section Driver.

Variable AgentState : Type.
Variable agent_invoke : Input → M AgentState InvokeResult.

(** The world of [main]: the terminal, the agent, and the calls made to
    [agent.invoke] so far (oldest first), kept for the properties. *)
Record World : Type := MkWorld {
  console : Console;
  agent : AgentState;
  calls : list Call
}.

Definition say (s : string) : M World unit :=
  λ w, (Ok tt, MkWorld (print s (console w)) (agent w) (calls w)).

Definition on_console {A} (m : M Console A) : M World A :=
  λ w, let '(r, c) := m (console w) in (r, MkWorld c (agent w) (calls w)).

(** [agent.invoke(input, config=config)] *)
Definition invoke (input : Input) : M World InvokeResult :=
  λ w, let '(r, a) := agent_invoke input (agent w) in
       (r, MkWorld (console w) a (calls w ++ [(input, r)])).

Definition index_last {A} (l : list A) : M World A :=
  match last_item l with
  | Some x => mret x
  | None => raise IndexError
  end.

(** The [for ... break] that looks for the content of the first tool message
    named read_email. *)
Fixpoint find_received_email (msgs : list Message) : string :=
  match msgs with
  | [] => ""
  | message :: rest =>
      match kind message, msg_name message with
      | ToolMessage, Some n =>
          if String.eqb n "read_email" then content message
          else find_received_email rest
      | _, _ => find_received_email rest
      end
  end.

(** The [while "__interrupt__" in result] loop.  [rounds] bounds the number
    of rounds run; [None] is returned when the bound is reached with the loop
    still going. *)
Fixpoint main_loop (rounds : nat) (result : InvokeResult)
  : M World (option InvokeResult) :=
  match interrupt result with
  | None => mret (Some result)
  | Some interrupts =>
      match rounds with
      | O => mret None
      | S rounds' =>
          last_interrupt ← index_last interrupts;
          action_request ← index_last (action_requests last_interrupt);
          let recipient := default "" (args action_request !! "recipient") in
          let subject := default "" (args action_request !! "subject") in
          let body := default "" (args action_request !! "body") in
          let email :=
            "To: " +:+ recipient +:+ NL +:+ "Subject: " +:+ subject
            +:+ NL +:+ NL +:+ body in
          let received_email :=
            find_received_email (default [] (messages result)) in
          decision ← on_console (get_user_decision received_email email);
          result ← invoke (Resume [ {[ "type" := decision ]} ]);
          main_loop rounds' result
      end
  end.

Definition prompt : string := "Please read my latest email and reply.".

Definition main (rounds : nat) : M World (option unit) :=
  say ("Starting Email Agent..." +:+ NL);;
  result ← invoke (Start [MkMessage HumanMessage None prompt]);
  final ← main_loop rounds result;
  match final with
  | None => mret None
  | Some result =>
      say (NL +:+ "Email Agent finished!");;
      match messages result with
      | Some (m :: ms) =>
          say (NL +:+ "--- Final Result ---");;
          say (content (List.last ms m));;
          mret (Some tt)
      | _ => mret (Some tt)
      end
  end.

End Driver.

Arguments MkWorld {AgentState}.
Arguments console {AgentState}.
Arguments agent {AgentState}.
Arguments calls {AgentState}.

End Email.

(** ** sql_agent/agent.py *)

Module Sql.

(** [SQLDatabase]: what [db.run] and [db.get_table_info] answer.  The
    database is a collaborator of the tools; only its answers matter here. *)
Record SQLDatabase : Type := MkDb {
  run : string → result string;
  get_table_info : list string → result string
}.

Record RuntimeContext : Type := MkContext { db : SQLDatabase }.

(** *** The tools

    The tools run in the state monad of the journal of the database: the
    queries handed to [db.run], oldest first. *)
Definition Journal : Type := list string.

Definition db_run (d : SQLDatabase) (query : string) : M Journal string :=
  λ journal, (run d query, journal ++ [query]).

Definition write_commands : list string :=
  ["INSERT"; "UPDATE"; "DELETE"; "CREATE"; "DROP"; "ALTER"; "TRUNCATE"].

(** [get_runtime(RuntimeContext)] hands the tool the context the driver
    passed to [agent.invoke]; it is the first argument here. *)
Definition execute_select_query_with (py : StrMethods)
    (context : RuntimeContext) (query : string) : M Journal string :=
  if negb (startswith (str_upper py (str_strip py query)) "SELECT") then
    mret "Error: This tool only accepts SELECT queries"
  else
    let db := db context in
    try_except
      (result ← db_run db query;
       mret ("Query executed successfully:" +:+ NL +:+ result))
      (λ e, mret ("Error: " +:+ str_exn e)).

Definition execute_write_query_with (py : StrMethods)
    (context : RuntimeContext) (query : string) : M Journal string :=
  let query_upper := str_upper py (str_strip py query) in
  let allowed := existsb (λ cmd, startswith query_upper cmd) write_commands in
  if negb allowed then
    mret "Error: This tool only accepts INSERT/UPDATE/DELETE/CREATE/DROP/ALTER/TRUNCATE queries"
  else
    let db := db context in
    try_except
      (result ← db_run db query;
       mret ("Write query executed successfully:" +:+ NL +:+ result))
      (λ e, mret ("Error: " +:+ str_exn e)).

(** The tools on ASCII text. *)
Definition execute_select_query : RuntimeContext → string → M Journal string :=
  execute_select_query_with ascii_str.

Definition execute_write_query : RuntimeContext → string → M Journal string :=
  execute_write_query_with ascii_str.

(** *** The prompt and the driver *)
Section Driver.

(** [preview_query_impact(query, db)] builds a text from what the database
    answers to a preview query.  The prompt prints that text and the verdict
    does not depend on it; the function is a parameter here. *)
Variable preview_query_impact : string → SQLDatabase → string.

Fixpoint decision_loop_with (py : StrMethods) (query preview : string)
    (lines out : list string) : result string * Console :=
  let out := out ++ [NL +:+ "Your decision: "] in
  match lines with
  | [] => (Raise EOFError, MkConsole [] out)
  | line :: rest =>
      let decision := str_lower py (str_strip py line) in
      if str_in decision ["a"; "approve"; "yes"; "y"] then
        (Ok "approve",
         MkConsole rest (out ++ [NL +:+ "Query approved, executing..." +:+ NL]))
      else if str_in decision ["r"; "reject"; "no"; "n"] then
        (Ok "reject", MkConsole rest (out ++ [NL +:+ "Query rejected" +:+ NL]))
      else if str_in decision ["v"; "view"] then
        decision_loop_with py query preview rest
          (out ++ [NL +:+ "Query:" +:+ NL +:+ query +:+ NL])
      else if str_in decision ["p"; "preview"] then
        decision_loop_with py query preview rest (out ++ [NL +:+ preview +:+ NL])
      else
        decision_loop_with py query preview rest
          (out ++ ["Invalid input. Please choose: [a]pprove, [r]eject, [v]iew, or [p]review"])
  end.

Definition get_user_decision_with (py : StrMethods) (query : string)
    (db : SQLDatabase) : M Console string :=
  λ c,
    let c := print (NL +:+ rule 100) c in
    let c := print "APPROVAL REQUIRED - WRITE OPERATION" c in
    let c := print (rule 100) c in
    let c := print ("Query to execute:" +:+ NL +:+ query) c in
    let c := print (rule 100) c in
    let preview := preview_query_impact query db in
    let c := print (NL +:+ preview +:+ NL) c in
    let c := print (rule 100) c in
    let c := print (NL +:+ "Options:") c in
    let c := print "  [a] Approve  - Execute the query" c in
    let c := print "  [r] Reject   - Cancel the query" c in
    let c := print "  [v] View     - Show query again" c in
    let c := print "  [p] Preview  - Show impact preview again" c in
    decision_loop_with py query preview (stdin c) (stdout c).

(** The prompt on ASCII text, as the driver below and its properties use
    it. *)
Definition decision_loop
  : string → string → list string → list string → result string * Console :=
  decision_loop_with ascii_str.

Definition get_user_decision : string → SQLDatabase → M Console string :=
  get_user_decision_with ascii_str.

(** The agent is a parameter, as in the email driver; here [agent.invoke]
    is also given the runtime context. *)
Variable AgentState : Type.
Variable agent_invoke : Input → RuntimeContext → M AgentState InvokeResult.

(** The module-level [db]. *)
Variable the_db : SQLDatabase.

Record World : Type := MkWorld {
  console : Console;
  agent : AgentState;
  calls : list Call
}.

Definition say (s : string) : M World unit :=
  λ w, (Ok tt, MkWorld (print s (console w)) (agent w) (calls w)).

Definition on_console {A} (m : M Console A) : M World A :=
  λ w, let '(r, c) := m (console w) in (r, MkWorld c (agent w) (calls w)).

(** [agent.invoke(input, context=RuntimeContext(db=db), config=config)] *)
Definition invoke (input : Input) : M World InvokeResult :=
  λ w, let '(r, a) := agent_invoke input (MkContext the_db) (agent w) in
       (r, MkWorld (console w) a (calls w ++ [(input, r)])).

Definition index_last {A} (l : list A) : M World A :=
  match last_item l with
  | Some x => mret x
  | None => raise IndexError
  end.

(** The [while "__interrupt__" in result] loop, bounded as in the email
    driver. *)
Fixpoint main_loop (rounds : nat) (result : InvokeResult)
  : M World (option InvokeResult) :=
  match interrupt result with
  | None => mret (Some result)
  | Some interrupts =>
      match rounds with
      | O => mret None
      | S rounds' =>
          last_interrupt ← index_last interrupts;
          action_request ← index_last (action_requests last_interrupt);
          let query := default "" (args action_request !! "query") in
          decision ← on_console (get_user_decision query the_db);
          result ← invoke (Resume [ {[ "type" := decision ]} ]);
          main_loop rounds' result
      end
  end.

Definition prompt : string :=
  "Please provide me with the names of all artists in the database. Then, add a new artist with name 'AI Records'.".

Definition main (rounds : nat) : M World (option unit) :=
  say ("Starting SQL Agent..." +:+ NL);;
  result ← invoke (Start [MkMessage HumanMessage None prompt]);
  final ← main_loop rounds result;
  match final with
  | None => mret None
  | Some result =>
      say (NL +:+ "SQL Agent finished!");;
      match messages result with
      | Some (m :: ms) =>
          say (NL +:+ "--- Final Result ---");;
          say (content (List.last ms m));;
          mret (Some tt)
      | _ => mret (Some tt)
      end
  end.

End Driver.

(** *** The preview *)

(** [db.get_table_info(tables)]; it runs no query of the caller. *)
Definition db_get_table_info (d : SQLDatabase) (tables : list string)
  : M Journal string :=
  λ journal, (get_table_info d tables, journal).

(** The pattern of the UPDATE branch, matched with IGNORECASE and DOTALL at
    the head of [s]: UPDATE, [\s+], [(\w+)] (group 1), [\s+], SET, a lazy
    run of any characters, and an optional group 2 made of WHERE and all
    that follows.  The lazy run first matches nothing and the optional group
    is then tried right there: group 2 is the rest of the string when it
    opens with WHERE, and is unmatched otherwise; either way the match is
    found without extending the lazy run. *)
Definition update_pattern (s : string) : option (string * option string) :=
  s ← Re.literal "UPDATE" s;
  s ← Re.spaces s;
  ws ← Re.word s;
  s ← Re.spaces ws.2;
  s ← Re.literal "SET" s;
  Some (ws.1, match Re.literal "WHERE" s with Some _ => Some s | None => None end).

(** [INSERT\s+INTO\s+(\w+)] with IGNORECASE, at the head of [s]: group 1. *)
Definition insert_pattern (s : string) : option string :=
  s ← Re.literal "INSERT" s;
  s ← Re.spaces s;
  s ← Re.literal "INTO" s;
  s ← Re.spaces s;
  ws ← Re.word s;
  Some ws.1.

Definition preview_unavailable : string :=
  "Preview not available for this operation".

(** [preview_query_impact(query, db)], in the monad of the journal. *)
Definition preview_query_impact (query : string) (db : SQLDatabase)
  : M Journal string :=
  let query_upper := upper (strip query) in
  try_except
    (if startswith query_upper "DELETE" then
       let preview_query := replace_first "DELETE" "SELECT *" query in
       result ← db_run db preview_query;
       mret ("Rows that will be deleted:" +:+ NL +:+ result)
     else if startswith query_upper "UPDATE" then
       match Re.search update_pattern query with
       | Some (table, where_group) =>
           let where_clause := default EmptyString where_group in
           let preview_query :=
             "SELECT * FROM " +:+ table +:+ " " +:+ where_clause in
           result ← db_run db preview_query;
           mret ("Rows that will be updated:" +:+ NL +:+ result)
       | None => mret preview_unavailable
       end
     else if startswith query_upper "INSERT" then
       match Re.search insert_pattern query with
       | Some table =>
           info ← db_get_table_info db [table];
           mret ("Target table structure:" +:+ NL +:+ info)
       | None => mret preview_unavailable
       end
     else mret preview_unavailable)
    (λ e, mret ("Could not generate preview: " +:+ str_exn e)).

Arguments MkWorld {AgentState}.
Arguments console {AgentState}.
Arguments agent {AgentState}.
Arguments calls {AgentState}.

End Sql.

(** ** obsidian_agent/agent.py *)

Module Obsidian.

(** *** The vault and the notes cache

    The vault directory is a finite map from the path of a file, relative to
    [vault_path], to its text.  A file has one key: its path in the form
    name/.../name; a folder is in the map through the files in it. *)

Record Note : Type := MkNote { title : string; note_content : string }.

(** [Store] is the state the tools act on: the vault on disk, the module
    variable [_notes_cache] ([None] until the first load), and the number of
    times [loader.load()] has run, kept for the properties. *)
Record Store : Type := MkStore {
  vault : gmap string string;
  notes_cache : option (list Note);
  loads : nat
}.

(** [s.rfind(c)] *)
Fixpoint rfind (c : ascii) (s : string) : option nat :=
  match s with
  | EmptyString => None
  | String a s' =>
      match rfind c s' with
      | Some i => Some (S i)
      | None => if Ascii.eqb a c then Some O else None
      end
  end.

(** [Path(p).name]: what follows the last slash. *)
Definition path_name (p : string) : string :=
  match rfind "/" p with
  | Some i => String.substring (S i) (String.length p - S i) p
  | None => p
  end.

(** [Path(p).stem]: the name without its last suffix; a name whose only dot
    is its first or its last character has no suffix. *)
Definition stem (p : string) : string :=
  let name := path_name p in
  match rfind "." name with
  | Some i =>
      if ((0 <? i) && (i <? String.length name - 1))%nat
      then String.substring 0 i name else name
  | None => name
  end.

(** [s.endswith(suffix)] *)
Definition endswith (s suffix : string) : bool :=
  (String.length suffix <=? String.length s)%nat &&
  String.eqb
    (String.substring (String.length s - String.length suffix)
       (String.length suffix) s)
    suffix.

(** A document of the loader: [metadata["source"]] and [page_content]. *)
Record Document : Type := MkDocument { source : string; page_content : string }.

(** [ObsidianLoader(str(vault_path)).load()]: one document per markdown file
    of the vault, its source the file and its content the text of the file.
    The loader belongs to a library; this is what the tools rely on. *)
Definition loader_load (files : gmap string string) : list Document :=
  (λ f : string * string, MkDocument f.1 f.2)
    <$> filter (λ f : string * string, endswith f.1 ".md" = true) (map_to_list files).

(** The list comprehension of [load_notes]. *)
Definition notes_of (docs : list Document) : list Note :=
  (λ doc,
     MkNote (if String.eqb (stem (source doc)) "" then "No Title"
             else stem (source doc))
            (page_content doc)) <$> docs.

(** [load_notes] and the tools below, for any [loader.load()]: [loader]
    gives the documents of the vault as it is. *)
Definition reload_with (loader : gmap string string → list Document) (s : Store)
  : result (list Note) * Store :=
  let docs := loader (vault s) in
  let notes := notes_of docs in
  (Ok notes, MkStore (vault s) (Some notes) (S (loads s))).

(** [load_notes(force_reload)]: [if _notes_cache is None or force_reload]
    rebuild the cache; return it. *)
Definition load_notes_with (loader : gmap string string → list Document)
    (force_reload : bool) : M Store (list Note) :=
  λ s,
    match notes_cache s with
    | None => reload_with loader s
    | Some notes => if force_reload then reload_with loader s else (Ok notes, s)
    end.

(** *** The tools *)

Definition inspect_notes_with (loader : gmap string string → list Document)
  : M Store (list Note) := load_notes_with loader false.

Definition path_exists (path : string) : M Store bool :=
  λ s, (Ok (bool_decide (is_Some (vault s !! path))), s).

Definition write_text (path text : string) : M Store unit :=
  λ s, (Ok tt, MkStore (<[path := text]> (vault s)) (notes_cache s) (loads s)).

(** [old.rename(new)], called when [old] exists and [new] does not. *)
Definition rename (old new : string) : M Store unit :=
  λ s,
    match vault s !! old with
    | Some text =>
        (Ok tt, MkStore (<[new := text]> (delete old (vault s)))
                  (notes_cache s) (loads s))
    | None => (Raise (Exception "FileNotFoundError"), s)
    end.

Definition correct_note_with (loader : gmap string string → list Document)
    (note_title new_note_title new_note_content : string) : M Store string :=
  let old_path := note_title +:+ ".md" in
  let new_path := new_note_title +:+ ".md" in
  old_exists ← path_exists old_path;
  if negb old_exists then
    mret ("Error: '" +:+ note_title +:+ "' not found")
  else
    write_text old_path new_note_content;;
    if negb (String.eqb note_title new_note_title) then
      new_exists ← path_exists new_path;
      if (new_exists : bool) then
        mret ("Error: '" +:+ new_note_title +:+ "' already exists")
      else
        rename old_path new_path;;
        load_notes_with loader true;;
        mret ("Updated and renamed to '" +:+ new_note_title +:+ "'")
    else
      load_notes_with loader true;;
      mret ("'" +:+ note_title +:+ "' updated").

(** The same with the loader [loader_load]. *)
Definition reload : Store → result (list Note) * Store := reload_with loader_load.

Definition load_notes : bool → M Store (list Note) := load_notes_with loader_load.

Definition inspect_notes : M Store (list Note) := inspect_notes_with loader_load.

Definition correct_note : string → string → string → M Store string :=
  correct_note_with loader_load.

(** *** The prompt *)

(** [s[:200] + "..." if len(s) > 200 else s] *)
Definition excerpt (s : string) : string :=
  if (200 <? String.length s)%nat then String.substring 0 200 s +:+ "..." else s.

Fixpoint decision_loop_with (py : StrMethods) (lines out : list string)
  : result string * Console :=
  let out := out ++ [NL +:+ "Your decision: "] in
  match lines with
  | [] => (Raise EOFError, MkConsole [] out)
  | line :: rest =>
      let decision := str_lower py (str_strip py line) in
      if str_in decision ["a"; "approve"; "yes"; "y"] then
        (Ok "approve",
         MkConsole rest (out ++ [NL +:+ "Changes approved, applying..." +:+ NL]))
      else if str_in decision ["r"; "reject"; "no"; "n"] then
        (Ok "reject",
         MkConsole rest
           (out ++ [NL +:+ "Changes rejected, skipping this note..." +:+ NL]))
      else
        decision_loop_with py rest
          (out ++ ["Invalid input. Please choose: [a]pprove or [r]eject"])
  end.

(** What [get_user_decision] prints before it looks at the new content. *)
Definition print_current (note_title note_content new_note_title : string)
    (c : Console) : Console :=
  let c := print (NL +:+ rule 80) c in
  let c := print ("CURRENT: " +:+ note_title) c in
  let c := print (rule 80) c in
  let c := print (excerpt note_content) c in
  let c := print (rule 80) c in
  let c := print (NL +:+ rule 80) c in
  let c := print ("PROPOSED: " +:+ new_note_title) c in
  print (rule 80) c.

Definition get_user_decision_with (py : StrMethods)
    (note_title note_content new_note_title new_note_content : string)
  : M Console string :=
  λ c,
    let c := print_current note_title note_content new_note_title c in
    let c := print (excerpt new_note_content) c in
    let c := print (rule 80 +:+ NL) c in
    let c := print "Options:" c in
    let c := print "  [a] Approve  - Apply the changes" c in
    let c := print "  [r] Reject   - Skip this note and continue" c in
    decision_loop_with py (stdin c) (stdout c).

(** The prompt on ASCII text, as the driver below and its properties use
    it. *)
Definition decision_loop : list string → list string → result string * Console :=
  decision_loop_with ascii_str.

Definition get_user_decision : string → string → string → string → M Console string :=
  get_user_decision_with ascii_str.

(** The call of [get_user_decision] in [main]: its arguments come from
    [args.get(...)] and are [None] when the key is absent.  A title that is
    [None] is printed as None; a new content that is [None] makes [len] raise
    [TypeError] once the titles are printed. *)
Definition ask (note_title : option string) (note_content : string)
    (new_note_title new_note_content : option string) : M Console string :=
  match new_note_content with
  | Some text =>
      get_user_decision (fmt note_title) note_content (fmt new_note_title) text
  | None =>
      λ c, (Raise (TypeError "object of type 'NoneType' has no len()"),
            print_current (fmt note_title) note_content (fmt new_note_title) c)
  end.

(** *** The driver

    The agent is a parameter, as in the email driver.  Its tools edit the
    vault, which the driver reads: [vault_of] is the vault as the agent's
    state has it. *)
Section Driver.

Variable AgentState : Type.
Variable agent_invoke : Input → M AgentState InvokeResult.
Variable vault_of : AgentState → gmap string string.

Record World : Type := MkWorld {
  console : Console;
  agent : AgentState;
  calls : list Call
}.

Definition say (s : string) : M World unit :=
  λ w, (Ok tt, MkWorld (print s (console w)) (agent w) (calls w)).

Definition on_console {A} (m : M Console A) : M World A :=
  λ w, let '(r, c) := m (console w) in (r, MkWorld c (agent w) (calls w)).

Definition invoke (input : Input) : M World InvokeResult :=
  λ w, let '(r, a) := agent_invoke input (agent w) in
       (r, MkWorld (console w) a (calls w ++ [(input, r)])).

Definition index_last {A} (l : list A) : M World A :=
  match last_item l with
  | Some x => mret x
  | None => raise IndexError
  end.

(** [note_path.read_text() if note_path.exists() else "[Not found]"] *)
Definition read_note (note_path : string) : M World string :=
  λ w, (Ok (default "[Not found]" (vault_of (agent w) !! note_path)), w).

(** The [for i, request in enumerate(all_requests)] loop; it rebinds
    [result] at every request. *)
Fixpoint for_requests (requests : list ActionRequest) (result : InvokeResult)
  : M World InvokeResult :=
  match requests with
  | [] => mret result
  | request :: rest =>
      let args := args request in
      let note_title := args !! "note_title" in
      let note_path := fmt note_title +:+ ".md" in
      note_content ← read_note note_path;
      decision ← on_console
        (ask note_title note_content
           (args !! "new_note_title") (args !! "new_note_content"));
      result ← invoke (Resume [ {[ "type" := decision ]} ]);
      for_requests rest result
  end.

(** The [while "__interrupt__" in result] loop, bounded as in the email
    driver. *)
Fixpoint main_loop (rounds : nat) (result : InvokeResult)
  : M World (option InvokeResult) :=
  match interrupt result with
  | None => mret (Some result)
  | Some interrupts =>
      match rounds with
      | O => mret None
      | S rounds' =>
          last_interrupt ← index_last interrupts;
          let all_requests := action_requests last_interrupt in
          result ← for_requests all_requests result;
          main_loop rounds' result
      end
  end.

Definition prompt : string :=
  "Inspect my notes and correct any inaccuracies you find.".

Definition main (rounds : nat) : M World (option unit) :=
  say ("Starting Obsidian Agent..." +:+ NL);;
  result ← invoke (Start [MkMessage HumanMessage None prompt]);
  final ← main_loop rounds result;
  match final with
  | None => mret None
  | Some result =>
      say (NL +:+ "Obsidian Agent finished!");;
      match messages result with
      | Some (m :: ms) =>
          say (NL +:+ "--- Final Result ---");;
          say (content (List.last ms m));;
          mret (Some tt)
      | _ => mret (Some tt)
      end
  end.

End Driver.

Arguments MkWorld {AgentState}.
Arguments console {AgentState}.
Arguments agent {AgentState}.
Arguments calls {AgentState}.

End Obsidian.

(** ** The execution engine

    [create_agent], [HumanInTheLoopMiddleware] and [InMemorySaver] come from a
    library and are not part of the repository.  The specification describes
    the engine they make up (sections 3, 4 and 7); this module follows it. *)

Module Engine.

(** *** Data model (section 3) *)

(** Modelled from the spec: the role of a Message, one of user, planner,
    tool (the message types of the library are not in the repository). *)
Inductive Role : Type := user | planner | tool.

(** Modelled from the spec: ToolCallRequest, [{id, tool_name, arguments}]. *)
Record ToolCallRequest : Type := MkCall {
  id : string;
  tool_name : string;
  arguments : gmap string string
}.

(** Modelled from the spec: Message,
    [{role, content, tool_calls, tool_call_id}]. *)
Record Message : Type := MkMessage {
  role : Role;
  content : string;
  tool_calls : list ToolCallRequest;
  tool_call_id : option string
}.

(** Modelled from the spec: the status of a run. *)
Inductive Status : Type := running | suspended | completed.

(** Modelled from the spec: RunState,
    [{thread_id, message_log, status, pending_requests}]. *)
Record RunState : Type := MkRun {
  thread_id : string;
  message_log : list Message;
  status : Status;
  pending_requests : list ToolCallRequest
}.

(** Modelled from the spec: the verdict of a Decision. *)
Inductive Verdict : Type := approve | reject.

(** Modelled from the spec: a Decision is [{request_id, verdict}].  The
    [request_id] is optional here so that a decision that names no request can
    be handed to [resume]; such a decision matches no pending request. *)
Record Decision : Type := MkDecision {
  request_id : option string;
  verdict : Verdict
}.

(** Modelled from the spec: the tool invoke interface (section 6), a text or
    [ToolExecutionError(message)]. *)
Inductive Invocation : Type :=
| Returned (text : string)
| ToolExecutionError (message : string).

(** Modelled from the spec: ToolRegistration,
    [{name, input_schema, invoke, gated}]. *)
Record ToolRegistration : Type := MkTool {
  name : string;
  input_schema : string;
  invoke : gmap string string → Invocation;
  gated : bool
}.

(** Modelled from the spec: the configuration and protocol errors of
    section 7. *)
Inductive Error : Type :=
| DuplicateToolError
| UnknownToolError
| UnknownThreadError
| NotSuspendedError
| DuplicateRunError
| DecisionMismatchError.

(** Modelled from the spec: RunOutcome, the tagged union of section 6. *)
Inductive RunOutcome : Type :=
| Completed (final_text : string)
| Suspended (pending : list ToolCallRequest).

(** Modelled from the spec: PlannerResponse, [{content, tool_calls}]. *)
Record PlannerResponse : Type := MkResponse {
  response_content : string;
  response_tool_calls : list ToolCallRequest
}.

(** *** Tool registry and gating policy (sections 4.1 and 4.2) *)

(** Modelled from the spec: the Tool Registry, the registrations in the order
    they were made. *)
Definition Registry : Type := list ToolRegistration.

(** Modelled from the spec: [lookup(name)], absent when [name] is not
    registered. *)
Definition lookup (registry : Registry) (n : string) : option ToolRegistration :=
  List.find (λ t, String.eqb (name t) n) registry.

(** Modelled from the spec: [register] fails with [DuplicateToolError] if the
    name is already registered. *)
Definition register (t : ToolRegistration) (registry : Registry)
  : Error + Registry :=
  match lookup registry (name t) with
  | Some _ => inl DuplicateToolError
  | None => inr (registry ++ [t])
  end.

(** Modelled from the spec: [catalog()], the [{name, input_schema}] pairs. *)
Definition catalog (registry : Registry) : list (string * string) :=
  (λ t, (name t, input_schema t)) <$> registry.

(** Modelled from the spec: [requires_approval(tool_name)], the [gated] flag
    of the registration, [UnknownToolError] for an unregistered name. *)
Definition requires_approval (registry : Registry) (n : string) : Error + bool :=
  match lookup registry n with
  | Some t => inr (gated t)
  | None => inl UnknownToolError
  end.

(** *** The engine (sections 4.3 and 4.4) *)

(** Modelled from the spec: the state between invocations, which is the
    Checkpoint Store, keyed by [thread_id]; with the requests whose tool was
    invoked so far (oldest first), kept for the properties. *)
Record EngineState : Type := MkEngine {
  store : gmap string RunState;
  invoked : list ToolCallRequest
}.

(** Modelled from the spec: what [start] and [resume] answer, a RunOutcome or
    an error surfaced to the caller. *)
Inductive Reply : Type :=
| Outcome (o : RunOutcome)
| Failure (e : Error).

(** Modelled from the spec: the standard "rejected by reviewer" payload. *)
Definition rejection_marker : string := "rejected by reviewer".

(** Modelled from the spec: a tool-result Message for a request; its
    [tool_call_id] refers to the request. *)
Definition tool_result (r : ToolCallRequest) (payload : string) : Message :=
  MkMessage tool payload [] (Some (id r)).

(** Modelled from the spec: the invoke/append-result procedure.  The tool is
    invoked and a tool-result message is appended, with the return value or
    with the failure text of a [ToolExecutionError]. *)
Definition execute (t : ToolRegistration) (r : ToolCallRequest)
    (st : list Message * list ToolCallRequest)
  : list Message * list ToolCallRequest :=
  let payload :=
    match invoke t (arguments r) with
    | Returned text => text
    | ToolExecutionError message => message
    end in
  (st.1 ++ [tool_result r payload], st.2 ++ [r]).

(** Modelled from the spec: the verdict a batch of decisions gives for a
    request, that of the first decision that names it. *)
Definition verdict_for (decisions : list Decision) (r : ToolCallRequest)
  : option Verdict :=
  verdict <$> List.find (λ d, bool_decide (request_id d = Some (id r))) decisions.

(** Modelled from the spec: step 3 of [resume].  For each pending request, in
    order: approved, the tool is invoked and its result appended; rejected, a
    "rejected by reviewer" tool-result is appended and the tool is not
    invoked. *)
Fixpoint apply_decisions (registry : Registry) (decisions : list Decision)
    (pending : list ToolCallRequest)
    (st : list Message * list ToolCallRequest)
  : (Error + list Message) * list ToolCallRequest :=
  match pending with
  | [] => (inr st.1, st.2)
  | r :: rest =>
      match verdict_for decisions r with
      | Some approve =>
          match lookup registry (tool_name r) with
          | Some t => apply_decisions registry decisions rest (execute t r st)
          | None => (inl UnknownToolError, st.2)
          end
      | Some reject =>
          apply_decisions registry decisions rest
            (st.1 ++ [tool_result r rejection_marker], st.2)
      | None => (inl DecisionMismatchError, st.2)
      end
  end.

(** Modelled from the spec: step 2 of [resume], the set of [request_id]s of
    the decisions is exactly the set of ids of the pending requests. *)
Definition batch_matches (decisions : list Decision)
    (pending : list ToolCallRequest) : bool :=
  bool_decide
    ((list_to_set (request_id <$> decisions) : gset (option string))
     = list_to_set ((λ r, Some (id r)) <$> pending)).

(** Modelled from the spec: step d of the drive loop, the calls of a turn
    split into gated and ungated, order preserved. *)
Fixpoint partition_calls (registry : Registry) (calls : list ToolCallRequest)
  : Error + (list ToolCallRequest * list (ToolRegistration * ToolCallRequest)) :=
  match calls with
  | [] => inr ([], [])
  | r :: rest =>
      match lookup registry (tool_name r), partition_calls registry rest with
      | None, _ => inl UnknownToolError
      | _, inl e => inl e
      | Some t, inr (gated_calls, ungated_calls) =>
          if gated t then inr (r :: gated_calls, ungated_calls)
          else inr (gated_calls, (t, r) :: ungated_calls)
      end
  end.

Section WithPlanner.

(** Modelled from the spec: the planner is external (section 6) and the
    registry is fixed at construction; both are parameters. *)
Variable plan : list Message → list (string * string) → PlannerResponse.
Variable registry : Registry.

(** Modelled from the spec: the drive loop (steps a to g).  [turns] bounds
    the planner turns run; [None] is returned when the bound is reached with
    the loop still going. *)
Fixpoint drive (turns : nat) (thread : string) (log : list Message)
    (calls : list ToolCallRequest)
  : option ((Error + RunOutcome * RunState) * list ToolCallRequest) :=
  match turns with
  | O => None
  | S turns' =>
      let response := plan log (catalog registry) in
      let log :=
        log ++ [MkMessage planner (response_content response)
                  (response_tool_calls response) None] in
      match response_tool_calls response with
      | [] =>
          Some (inr (Completed (response_content response),
                     MkRun thread log completed []), calls)
      | requested =>
          match partition_calls registry requested with
          | inl e => Some (inl e, calls)
          | inr (gated_calls, ungated_calls) =>
              let st := foldl (λ st tr, execute tr.1 tr.2 st) (log, calls)
                          ungated_calls in
              match gated_calls with
              | [] => drive turns' thread st.1 st.2
              | _ =>
                  Some (inr (Suspended gated_calls,
                             MkRun thread st.1 suspended gated_calls), st.2)
              end
          end
      end
  end.

(** Modelled from the spec: the end of an invocation.  The run state is
    saved in the store ([save], keyed by thread) when the drive loop gives an
    outcome; on an error the store is left as it was. *)
Definition finish (thread : string) (st : EngineState)
    (r : option ((Error + RunOutcome * RunState) * list ToolCallRequest))
  : option (Reply * EngineState) :=
  match r with
  | None => None
  | Some (inl e, calls) => Some (Failure e, MkEngine (store st) calls)
  | Some (inr (o, run), calls) =>
      Some (Outcome o, MkEngine (<[thread := run]> (store st)) calls)
  end.

(** Modelled from the spec: [start(thread_id, initial_message)]. *)
Definition start (turns : nat) (thread user_text : string) (st : EngineState)
  : option (Reply * EngineState) :=
  match store st !! thread with
  | Some _ => Some (Failure DuplicateRunError, st)
  | None =>
      finish thread st
        (drive turns thread [MkMessage user user_text [] None] (invoked st))
  end.

(** Modelled from the spec: [resume(thread_id, decisions)], steps 1 to 4. *)
Definition resume (turns : nat) (thread : string) (decisions : list Decision)
    (st : EngineState) : option (Reply * EngineState) :=
  match store st !! thread with
  | None => Some (Failure UnknownThreadError, st)
  | Some run =>
      match status run with
      | suspended =>
          if negb (batch_matches decisions (pending_requests run)) then
            Some (Failure DecisionMismatchError, st)
          else
            match apply_decisions registry decisions (pending_requests run)
                    (message_log run, invoked st) with
            | (inl e, calls) => Some (Failure e, MkEngine (store st) calls)
            | (inr log, calls) => finish thread st (drive turns thread log calls)
            end
      | _ => Some (Failure NotSuspendedError, st)
      end
  end.

End WithPlanner.

End Engine.

(** * Properties *)

(** ** Vocabulary of the statements *)

(** *** The decision prompts *)

(** [input(...).strip().lower()] *)
Definition normalise (py : StrMethods) (line : string) : string :=
  str_lower py (str_strip py line).

Definition approve_synonyms : list string := ["a"; "approve"; "yes"; "y"].
Definition reject_synonyms : list string := ["r"; "reject"; "no"; "n"].

(** A line is valid when its normal form is an approve or a reject synonym. *)
Definition valid (py : StrMethods) (line : string) : bool :=
  str_in (normalise py line) approve_synonyms
  || str_in (normalise py line) reject_synonyms.

(** The first valid line typed, if any. *)
Definition first_valid (py : StrMethods) (lines : list string) : option string :=
  List.find (valid py) lines.

(** What a prompt computes from the lines typed: the verdict of the first
    valid line, or [EOFError] when no valid line is ever typed. *)
Definition prompt_outcome (py : StrMethods) (lines : list string) : result string :=
  match first_valid py lines with
  | Some line =>
      if str_in (normalise py line) approve_synonyms
      then Ok "approve" else Ok "reject"
  | None => Raise EOFError
  end.

(** The contract of a decision prompt, as a predicate on the prompt. *)
Definition decision_prompt_spec (py : StrMethods) (prompt : M Console string)
  : Prop :=
  ∀ lines out,
    let r := (prompt (MkConsole lines out)).1 in
    (r = Ok "approve" ↔
       ∃ line, first_valid py lines = Some line ∧
               normalise py line ∈ approve_synonyms) ∧
    (r = Ok "reject" ↔
       ∃ line, first_valid py lines = Some line ∧
               normalise py line ∈ reject_synonyms) ∧
    (∀ v, r = Ok v → v = "approve" ∨ v = "reject") ∧
    (∀ line, valid py line = false →
       (prompt (MkConsole (line :: lines) out)).1 = r).

(** *** The SQL tools *)

Definition select_refusal : string := "Error: This tool only accepts SELECT queries".
Definition write_refusal : string :=
  "Error: This tool only accepts INSERT/UPDATE/DELETE/CREATE/DROP/ALTER/TRUNCATE queries".

(** The guards, as the tools compute them. *)
Definition select_guard (query : string) : bool :=
  startswith (upper (strip query)) "SELECT".
Definition write_guard (query : string) : bool :=
  existsb (λ cmd, startswith (upper (strip query)) cmd) Sql.write_commands.

(** The guards for any text, with the str methods of Python as [py]. *)
Definition select_guard_with (py : StrMethods) (query : string) : bool :=
  startswith (str_upper py (str_strip py query)) "SELECT".
Definition write_guard_with (py : StrMethods) (query : string) : bool :=
  existsb (λ cmd, startswith (str_upper py (str_strip py query)) cmd)
    Sql.write_commands.

(** Two databases for the examples: one whose [run] always raises, one whose
    [run] always answers. *)
Definition db_broken : Sql.SQLDatabase :=
  Sql.MkDb (λ _, Raise (Exception "no such table: artist")) (λ _, Ok "").
Definition db_ok : Sql.SQLDatabase :=
  Sql.MkDb (λ _, Ok "[(1,)]") (λ _, Ok "").

(** *** The notes cache *)

(** What a load of the vault gives. *)
Definition fresh_notes (files : gmap string string) : list Obsidian.Note :=
  Obsidian.notes_of (Obsidian.loader_load files).

(** The cache holds what a load of the vault as it is now would give. *)
Definition cache_consistent (s : Obsidian.Store) : Prop :=
  Obsidian.notes_cache s = Some (fresh_notes (Obsidian.vault s)).

(** A run of default calls [load_notes()], one per element of [edits]; before
    each call the vault on disk is replaced by that element (an edit made
    behind the cache). *)
Fixpoint default_calls (edits : list (gmap string string)) (s : Obsidian.Store)
  : list (result (list Obsidian.Note)) * Obsidian.Store :=
  match edits with
  | [] => ([], s)
  | files :: rest =>
      let call :=
        Obsidian.load_notes false
          (Obsidian.MkStore files (Obsidian.notes_cache s) (Obsidian.loads s)) in
      let calls := default_calls rest call.2 in
      (call.1 :: calls.1, calls.2)
  end.

(** A vault with two notes, and the store once the notes were inspected. *)
Definition two_notes : gmap string string :=
  {[ "A.md" := "old text"; "B.md" := "bee" ]}.
Definition two_notes_loaded : Obsidian.Store :=
  (Obsidian.inspect_notes (Obsidian.MkStore two_notes None 0)).2.

(** *** The traces of the drivers *)

(** The requests that await a decision in a result of [agent.invoke]: those
    of all its interrupts. *)
Definition pending_of (res : InvokeResult) : list ActionRequest :=
  default [] (interrupt res) ≫= action_requests.

(** The batch the drivers build: one decision, a dict whose only key is
    "type", with the verdict typed at the prompt. *)
Definition single_verdict_batch (ds : list (gmap string string)) : Prop :=
  ∃ v, ds = [ {[ "type" := v ]} ] ∧ (v = "approve" ∨ v = "reject").




(** The protocol of a driver loop: a resume is issued only on a result that
    carries an interrupt, and no call follows one that raised. *)
Fixpoint resumes_only_when_suspended (last : InvokeResult) (cs : list Call)
  : Prop :=
  match cs with
  | [] => True
  | (input, r) :: rest =>
      (∃ ds, input = Resume ds) ∧ is_Some (interrupt last) ∧
      match r with
      | Ok res => resumes_only_when_suspended res rest
      | Raise _ => rest = []
      end
  end.

(** No call follows a call that returned a result without an interrupt. *)
Definition completion_is_final (cs : list Call) : Prop :=
  ∀ pre input res post,
    cs = pre ++ (input, Ok res) :: post → interrupt res = None → post = [].

(** A scripted agent for the examples: its state is the list of the results
    still to be given, one per call. *)
Definition scripted (input : Input) : M (list InvokeResult) InvokeResult :=
  λ script,
    match script with
    | res :: rest => (Ok res, rest)
    | [] => (Raise (Exception "no more results"), [])
    end.

Definition send_to (recipient : string) : ActionRequest :=
  MkRequest "send_email"
    {[ "recipient" := recipient; "subject" := "Meeting"; "body" := "Fine." ]}.

Definition final_result : InvokeResult :=
  MkResult None (Some [MkMessage AIMessage None "Done."]).

(** One suspension with one pending request, then completion. *)
Definition one_request_script : list InvokeResult :=
  [MkResult (Some [MkInterrupt [send_to "mark"]]) (Some []); final_result].

(** One suspension with two pending requests, then completion. *)
Definition two_request_script : list InvokeResult :=
  [MkResult (Some [MkInterrupt [send_to "alice"; send_to "bob"]]) (Some []);
   final_result].

Definition email_world (script : list InvokeResult) (lines : list string)
  : Email.World (list InvokeResult) :=
  Email.MkWorld (MkConsole lines []) script [].

(** *** The engine *)


(** The scenario of section 8 of the specification: the planner asks for
    read_email, then for send_email, then answers. *)
Definition scenario_registry : Engine.Registry :=
  [Engine.MkTool "read_email" "{}" (λ _, Engine.Returned Email.read_email) false;
   Engine.MkTool "send_email" "{recipient, subject, body}"
     (λ a, Engine.Returned
             (Email.send_email (default "" (a !! "recipient"))
                (default "" (a !! "subject")) (default "" (a !! "body"))))
     true].

Definition send_request : Engine.ToolCallRequest :=
  Engine.MkCall "call_2" "send_email"
    {[ "recipient" := "mark"; "subject" := "Meeting"; "body" := "Fine." ]}.

Definition scenario_plan (log : list Engine.Message) (tools : list (string * string))
  : Engine.PlannerResponse :=
  match length log with
  | 1%nat => Engine.MkResponse "" [Engine.MkCall "call_1" "read_email" ∅]
  | 3%nat => Engine.MkResponse "" [send_request]
  | _ => Engine.MkResponse "The email was not sent." []
  end.

Definition engine_empty : Engine.EngineState := Engine.MkEngine ∅ [].

(** The engine after [start("t1", ...)] of the scenario: suspended on
    send_email. *)
Definition engine_suspended : Engine.EngineState :=
  match Engine.start scenario_plan scenario_registry 5 "t1"
          "read my email and reply" engine_empty with
  | Some (_, st) => st
  | None => engine_empty
  end.

(** The engine after the rejection of send_email: completed. *)
Definition engine_completed : Engine.EngineState :=
  match Engine.resume scenario_plan scenario_registry 5 "t1"
          [Engine.MkDecision (Some "call_2") Engine.reject] engine_suspended with
  | Some (_, st) => st
  | None => engine_empty
  end.

(** The lines of a terminal that show an email for approval. *)
Definition emails_shown (c : Console) : list string :=
  filter (λ line, startswith line "Email to send:" = true) (stdout c).

(** The lines of a terminal that show the note whose correction is asked. *)
Definition notes_shown (c : Console) : list string :=
  filter (λ line, startswith line "CURRENT: " = true) (stdout c).

Definition correct (note_title : string) : ActionRequest :=
  MkRequest "correct_note"
    {[ "note_title" := note_title; "new_note_title" := note_title;
       "new_note_content" := "fixed" ]}.

(** A scripted agent for the Obsidian driver: its state also holds the vault
    (which the script leaves alone). *)
Definition scripted_vault (input : Input)
  : M (list InvokeResult * gmap string string) InvokeResult :=
  λ st,
    match st.1 with
    | res :: rest => (Ok res, (rest, st.2))
    | [] => (Raise (Exception "no more results"), st)
    end.

(** One suspension with two notes to correct; the first resume already ends
    the run. *)
Definition two_notes_script : list InvokeResult :=
  [MkResult (Some [MkInterrupt [correct "A"; correct "B"]]) (Some []);
   final_result; final_result].

Definition obsidian_world (script : list InvokeResult) (lines : list string)
  : Obsidian.World (list InvokeResult * gmap string string) :=
  Obsidian.MkWorld (MkConsole lines []) (script, two_notes) [].

(** *** Vocabulary of the further properties *)

(** [old in s] *)
Fixpoint occurs (old s : string) : bool :=
  String.prefix old s ||
  match s with
  | EmptyString => false
  | String _ s' => occurs old s'
  end.

(** Every character of [s] satisfies [p]. *)
Fixpoint all_chars (p : ascii → bool) (s : string) : bool :=
  match s with
  | EmptyString => true
  | String c s' => p c && all_chars p s'
  end.

(** A text of ASCII characters only.  On such a text the units of the string
    are its characters, and [strip], [lower], [upper] of [Py] and the lengths
    and slices of [String] are those of Python. *)
Definition ascii_text (s : string) : bool :=
  all_chars (λ c, (code c <? 128)%N) s.

(** A file name: no slash and no NUL, not empty, not "." or "..", and at most
    255 units long. *)
Definition file_name (name : string) : bool :=
  all_chars (λ c, negb (Ascii.eqb c "/") && negb (Ascii.eqb c "000")) name
  && negb (str_in name [""; "."; ".."])
  && (String.length name <=? 255)%nat.

(** A plain title: "<title>.md" is a file name.  [vault_path / "<title>.md"]
    then names an entry of the vault directory itself, and two plain titles
    name one entry only when they are equal (on a file system that tells
    names apart by their units). *)
Definition plain_title (t : string) : bool := file_name (t +:+ ".md").



(** Nothing in the vault directory is called [name]: no file, and no folder
    (a folder is in the vault as the first part of the paths of its
    files). *)
Definition free_name (files : gmap string string) (name : string) : bool :=
  bool_decide (files !! name = None)
  && forallb (λ f : string * string, negb (startswith f.1 (name +:+ "/")))
       (map_to_list files).

(** A database that answers every query with the query itself. *)
Definition db_echo : Sql.SQLDatabase :=
  Sql.MkDb (λ q, Ok q) (λ tables, Ok (default "?" (head tables))).

(** The statements of the write tool that are neither a delete, an update nor
    an insert. *)
Definition unpreviewed_commands : list string :=
  ["CREATE"; "DROP"; "ALTER"; "TRUNCATE"].

(** A vault whose only note is in a folder. *)
Definition nested_store : Obsidian.Store :=
  Obsidian.MkStore {[ "sub/A.md" := "deep" ]} None 0.


(** A scripted database-aware agent for the SQL driver. *)
Definition scripted_sql (input : Input) (context : Sql.RuntimeContext)
  : M (list InvokeResult) InvokeResult := scripted input.

Definition sql_world (script : list InvokeResult) (lines : list string)
  : Sql.World (list InvokeResult) :=
  Sql.MkWorld (MkConsole lines []) script [].

(** A request to correct a note that carries no new content. *)
Definition correct_without_content : ActionRequest :=
  MkRequest "correct_note" {[ "note_title" := "A"; "new_note_title" := "A" ]}.

(** ** The prompts return a verdict of the vocabulary *)

Lemma str_in_spec x l : str_in x l = true ↔ x ∈ l.
Proof. unfold str_in. apply bool_decide_eq_true. Qed.

Lemma synonyms_disjoint x : x ∈ approve_synonyms → x ∈ reject_synonyms → False.
Proof.
  unfold approve_synonyms, reject_synonyms. intros Ha Hr.
  repeat (apply elem_of_cons in Ha as [-> | Ha]);
    try (by apply elem_of_nil in Ha);
    repeat (apply elem_of_cons in Hr as [Hr | Hr]; [discriminate Hr |]);
    by apply elem_of_nil in Hr.
Qed.

Lemma valid_spec py line :
  valid py line = true ↔
  normalise py line ∈ approve_synonyms ∨ normalise py line ∈ reject_synonyms.
Proof. unfold valid. rewrite orb_true_iff, !str_in_spec. tauto. Qed.

Lemma first_valid_is_valid py lines line :
  first_valid py lines = Some line → valid py line = true.
Proof. intros H. by apply List.find_some in H as [_ ?]. Qed.

(** Any prompt whose result is [prompt_outcome] of the lines typed meets the
    contract. *)
Lemma prompt_outcome_spec py (prompt : M Console string) :
  (∀ lines out, (prompt (MkConsole lines out)).1 = prompt_outcome py lines) →
  decision_prompt_spec py prompt.
Proof.
  intros Hp lines out. cbv zeta. rewrite Hp. unfold prompt_outcome.
  repeat split.
  - destruct (first_valid py lines) as [line|] eqn:Hf; [|done].
    destruct (str_in (normalise py line) approve_synonyms) eqn:Ha; [|done].
    intros _. exists line. by rewrite <- str_in_spec.
  - intros (line & -> & Ha). apply str_in_spec in Ha. by rewrite Ha.
  - destruct (first_valid py lines) as [line|] eqn:Hf; [|done].
    destruct (str_in (normalise py line) approve_synonyms) eqn:Ha; [done|].
    intros _. exists line. split; [done|].
    apply first_valid_is_valid, valid_spec in Hf as [Hf|Hf]; [|done].
    apply str_in_spec in Hf. congruence.
  - intros (line & -> & Hr).
    destruct (str_in (normalise py line) approve_synonyms) eqn:Ha; [|done].
    apply str_in_spec in Ha. destruct (synonyms_disjoint _ Ha Hr).
  - intros v. destruct (first_valid py lines) as [line|]; [|done].
    destruct (str_in _ _); intros [= <-]; auto.
  - intros line Hv. rewrite Hp. unfold prompt_outcome, first_valid. simpl.
    by rewrite Hv.
Qed.

(** The three loops compute [prompt_outcome], whatever the str methods. *)
Ltac loop_outcome :=
  let lines := fresh "lines" in
  let line := fresh "line" in
  let IH := fresh "IH" in
  let out := fresh "out" in
  intros lines; induction lines as [|line lines IH]; intros out; [done|];
  unfold prompt_outcome, first_valid in *; simpl; unfold valid, normalise;
  fold approve_synonyms reject_synonyms;
  repeat (match goal with
          | |- context [str_in ?x ?l] => destruct (str_in x l) eqn:?; simpl; try done
          end);
  apply IH.

Lemma email_loop_outcome py lines out :
  (Email.decision_loop_with py lines out).1 = prompt_outcome py lines.
Proof. revert lines out. loop_outcome. Qed.

Lemma sql_loop_outcome py query preview lines out :
  (Sql.decision_loop_with py query preview lines out).1 = prompt_outcome py lines.
Proof. revert lines out. loop_outcome. Qed.

Lemma obsidian_loop_outcome py lines out :
  (Obsidian.decision_loop_with py lines out).1 = prompt_outcome py lines.
Proof. revert lines out. loop_outcome. Qed.

(** C3.  In each of the three agents, for every text typed and with [strip]
    and [lower] as Python has them ([py]), [get_user_decision] returns
    'approve' exactly when the first valid line typed (valid after [strip]
    and [lower]) is one of a, approve, yes, y; returns 'reject' exactly when
    it is one of r, reject, no, n; skips every other line and asks again; and
    so returns no verdict other than 'approve' and 'reject'. *)
Theorem get_user_decision_vocabulary (py : StrMethods) :
  (∀ received_email email,
      decision_prompt_spec py
        (Email.get_user_decision_with py received_email email)) ∧
  (∀ preview_query_impact query db,
      decision_prompt_spec py
        (Sql.get_user_decision_with preview_query_impact py query db)) ∧
  (∀ note_title note_content new_note_title new_note_content,
      decision_prompt_spec py
        (Obsidian.get_user_decision_with py note_title note_content
           new_note_title new_note_content)).
Proof.
  split; [|split]; intros; apply prompt_outcome_spec; intros lines out.
  - apply email_loop_outcome.
  - apply sql_loop_outcome.
  - apply obsidian_loop_outcome.
Qed.

Lemma get_user_decision_vocabulary_witness :
  (Email.get_user_decision_with ascii_str "hi" "To: x"
     (MkConsole ["maybe"; "  YES "; "n"] [])).1
  = Ok "approve".
Proof.
  destruct (get_user_decision_vocabulary ascii_str) as (He & _ & _).
  unfold decision_prompt_spec in He.
  destruct (He "hi" "To: x" ["maybe"; "  YES "; "n"] []) as ((_ & Happrove) & _).
  apply Happrove. exists "  YES ". split; [vm_compute; reflexivity|].
  change (normalise ascii_str "  YES ") with "yes". unfold approve_synonyms.
  do 2 apply list_elem_of_further. apply list_elem_of_here.
Defined.

Example email_prompt_yes :
  (Email.get_user_decision "hi" "To: x" (MkConsole ["maybe"; "  YES "; "n"] [])).1
  = Ok "approve".
Proof. vm_compute. reflexivity. Qed.

Example sql_prompt_view_then_no :
  (Sql.get_user_decision (λ _ _, "preview") "DELETE FROM t" db_ok
     (MkConsole ["v"; "p"; "No"] [])).1
  = Ok "reject".
Proof. vm_compute. reflexivity. Qed.

(** ** The SQL tools *)

Lemma rstrip_cons c s : isspace c = false → rstrip (String c s) = String c (rstrip s).
Proof. intros Hc. simpl. rewrite Hc. by destruct (rstrip s). Qed.

Lemma upper_cons c s : upper (String c s) = String (upper_char c) (upper s).
Proof. done. Qed.

Lemma prefix_cons c p s : String.prefix (String c p) (String c s) = String.prefix p s.
Proof. simpl. by destruct (ascii_dec c c). Qed.

Lemma prefix_empty s : String.prefix "" s = true.
Proof. by destruct s. Qed.

(** A query that opens with a keyword of the tool passes its guard, whatever
    follows the keyword. *)
Ltac keyword_guard :=
  unfold strip; cbv [String.append];
  change (lstrip ?s) with s;
  rewrite !rstrip_cons by reflexivity;
  rewrite !upper_cons;
  repeat match goal with
         | |- context [upper_char ?c] =>
             let c' := eval vm_compute in (upper_char c) in
             change (upper_char c) with c'
         end;
  cbn [existsb]; unfold startswith;
  rewrite ?prefix_cons; rewrite prefix_empty;
  vm_compute; reflexivity.

Lemma select_guard_keyword rest : select_guard ("SELECT" +:+ rest) = true.
Proof. unfold select_guard. keyword_guard. Qed.

Lemma write_guard_keyword cmd rest :
  cmd ∈ Sql.write_commands → write_guard (cmd +:+ rest) = true.
Proof.
  unfold Sql.write_commands. intros H.
  repeat (apply elem_of_cons in H as [-> | H]);
    try (by apply elem_of_nil in H);
    unfold write_guard, Sql.write_commands; keyword_guard.
Qed.

Lemma write_guard_false_with py query :
  (∀ cmd, cmd ∈ Sql.write_commands →
          startswith (str_upper py (str_strip py query)) cmd = false) →
  write_guard_with py query = false.
Proof.
  intros H. unfold write_guard_with. apply not_true_is_false.
  intros (cmd & Hin & Hp)%existsb_exists.
  apply list_elem_of_In in Hin. rewrite (H cmd Hin) in Hp. discriminate.
Qed.

Lemma write_guard_true_with py query cmd :
  cmd ∈ Sql.write_commands →
  startswith (str_upper py (str_strip py query)) cmd = true →
  write_guard_with py query = true.
Proof.
  intros Hin Hp. unfold write_guard_with. apply existsb_exists.
  exists cmd. split; [by apply list_elem_of_In|done].
Qed.

Lemma select_refused_with py context query journal :
  select_guard_with py query = false →
  Sql.execute_select_query_with py context query journal
  = (Ok select_refusal, journal).
Proof. unfold select_guard_with, Sql.execute_select_query_with. by intros ->. Qed.

Lemma write_refused_with py context query journal :
  write_guard_with py query = false →
  Sql.execute_write_query_with py context query journal
  = (Ok write_refusal, journal).
Proof. unfold write_guard_with, Sql.execute_write_query_with. by intros ->. Qed.

Lemma select_passed_with py context query journal :
  select_guard_with py query = true →
  Sql.execute_select_query_with py context query journal =
  (match Sql.run (Sql.db context) query with
   | Ok result => Ok ("Query executed successfully:" +:+ NL +:+ result)
   | Raise e => Ok ("Error: " +:+ str_exn e)
   end, journal ++ [query]).
Proof.
  unfold select_guard_with, Sql.execute_select_query_with. intros ->. simpl.
  unfold try_except, mbind, M_bind, bind, Sql.db_run.
  by destruct (Sql.run _ _).
Qed.

Lemma write_passed_with py context query journal :
  write_guard_with py query = true →
  Sql.execute_write_query_with py context query journal =
  (match Sql.run (Sql.db context) query with
   | Ok result => Ok ("Write query executed successfully:" +:+ NL +:+ result)
   | Raise e => Ok ("Error: " +:+ str_exn e)
   end, journal ++ [query]).
Proof.
  unfold write_guard_with, Sql.execute_write_query_with. intros ->. simpl.
  unfold try_except, mbind, M_bind, bind, Sql.db_run.
  by destruct (Sql.run _ _).
Qed.

(** The same on ASCII text. *)
Lemma write_guard_false query :
  (∀ cmd, cmd ∈ Sql.write_commands → startswith (upper (strip query)) cmd = false) →
  write_guard query = false.
Proof. apply (write_guard_false_with ascii_str). Qed.

Lemma select_refused context query journal :
  select_guard query = false →
  Sql.execute_select_query context query journal = (Ok select_refusal, journal).
Proof. apply (select_refused_with ascii_str). Qed.

Lemma write_refused context query journal :
  write_guard query = false →
  Sql.execute_write_query context query journal = (Ok write_refusal, journal).
Proof. apply (write_refused_with ascii_str). Qed.

Lemma select_passed context query journal :
  select_guard query = true →
  Sql.execute_select_query context query journal =
  (match Sql.run (Sql.db context) query with
   | Ok result => Ok ("Query executed successfully:" +:+ NL +:+ result)
   | Raise e => Ok ("Error: " +:+ str_exn e)
   end, journal ++ [query]).
Proof. apply (select_passed_with ascii_str). Qed.

Lemma write_passed context query journal :
  write_guard query = true →
  Sql.execute_write_query context query journal =
  (match Sql.run (Sql.db context) query with
   | Ok result => Ok ("Write query executed successfully:" +:+ NL +:+ result)
   | Raise e => Ok ("Error: " +:+ str_exn e)
   end, journal ++ [query]).
Proof. apply (write_passed_with ascii_str). Qed.

(** C4.  When [db.run] raises on a query, both SQL tools return normally, with
    a string that begins with "Error:"; when the call is made (the guard
    passed) that string is "Error: " followed by the text of the exception.
    No input makes either tool raise. *)
Theorem sql_tools_catch_db_errors context query journal :
  (∀ e, Sql.run (Sql.db context) query = Raise e →
     (∃ payload,
        (Sql.execute_select_query context query journal).1 = Ok payload ∧
        startswith payload "Error:" = true ∧
        (select_guard query = true → payload = "Error: " +:+ str_exn e)) ∧
     (∃ payload,
        (Sql.execute_write_query context query journal).1 = Ok payload ∧
        startswith payload "Error:" = true ∧
        (write_guard query = true → payload = "Error: " +:+ str_exn e))) ∧
  (∃ payload, (Sql.execute_select_query context query journal).1 = Ok payload) ∧
  (∃ payload, (Sql.execute_write_query context query journal).1 = Ok payload).
Proof.
  split; [intros e He; split | split].
  - destruct (select_guard query) eqn:Hg.
    + rewrite select_passed, He by done. eauto.
    + rewrite select_refused by done. by exists select_refusal.
  - destruct (write_guard query) eqn:Hg.
    + rewrite write_passed, He by done. eauto.
    + rewrite write_refused by done. by exists write_refusal.
  - destruct (select_guard query) eqn:Hg.
    + rewrite select_passed by done. destruct (Sql.run _ _); eauto.
    + rewrite select_refused by done. eauto.
  - destruct (write_guard query) eqn:Hg.
    + rewrite write_passed by done. destruct (Sql.run _ _); eauto.
    + rewrite write_refused by done. eauto.
Qed.

Lemma sql_tools_catch_db_errors_witness :
  (∃ payload,
     (Sql.execute_select_query (Sql.MkContext db_broken) "select * from artist" []).1
     = Ok payload ∧
     startswith payload "Error:" = true ∧
     (select_guard "select * from artist" = true →
      payload = "Error: no such table: artist")) ∧
  (∃ payload,
     (Sql.execute_write_query (Sql.MkContext db_broken) "select * from artist" []).1
     = Ok payload ∧
     startswith payload "Error:" = true ∧
     (write_guard "select * from artist" = true →
      payload = "Error: no such table: artist")).
Proof.
  apply (proj1 (sql_tools_catch_db_errors (Sql.MkContext db_broken)
                  "select * from artist" [])
           (Exception "no such table: artist")).
  reflexivity.
Defined.

(** C8.  With [strip] and [upper] as Python has them ([py]), on every text:
    a query whose stripped upper-casing does not start with SELECT is refused
    by [execute_select_query] with its fixed string and [db.run] is not called
    (the journal is unchanged); likewise [execute_write_query] for a query
    that starts with none of its seven keywords.  Only the leading keyword is
    inspected: once the stripped upper-casing starts with the keyword the
    query is handed whole to [db.run], whatever follows; in particular a
    query that opens with the keyword itself is. *)
Theorem sql_tools_prefix_guard (py : StrMethods) context journal :
  (∀ query,
     startswith (str_upper py (str_strip py query)) "SELECT" = false →
     Sql.execute_select_query_with py context query journal
     = (Ok select_refusal, journal)) ∧
  (∀ query,
     (∀ cmd, cmd ∈ Sql.write_commands →
             startswith (str_upper py (str_strip py query)) cmd = false) →
     Sql.execute_write_query_with py context query journal
     = (Ok write_refusal, journal)) ∧
  (∀ query,
     startswith (str_upper py (str_strip py query)) "SELECT" = true →
     (Sql.execute_select_query_with py context query journal).2
     = journal ++ [query]) ∧
  (∀ query cmd,
     cmd ∈ Sql.write_commands →
     startswith (str_upper py (str_strip py query)) cmd = true →
     (Sql.execute_write_query_with py context query journal).2
     = journal ++ [query]) ∧
  (∀ rest,
     (Sql.execute_select_query context ("SELECT" +:+ rest) journal).2
     = journal ++ ["SELECT" +:+ rest]) ∧
  (∀ cmd rest,
     cmd ∈ Sql.write_commands →
     (Sql.execute_write_query context (cmd +:+ rest) journal).2
     = journal ++ [cmd +:+ rest]).
Proof.
  repeat split.
  - intros query Hg. by apply select_refused_with.
  - intros query Hg. by apply write_refused_with, write_guard_false_with.
  - intros query Hg. by rewrite select_passed_with.
  - intros query cmd Hin Hg.
    by rewrite write_passed_with by by eapply write_guard_true_with.
  - intros rest. by rewrite select_passed by apply select_guard_keyword.
  - intros cmd rest Hin. by rewrite write_passed by by apply write_guard_keyword.
Qed.

Lemma sql_tools_prefix_guard_witness :
  Sql.execute_select_query_with ascii_str (Sql.MkContext db_ok) "DROP TABLE artist" []
  = (Ok select_refusal, []) ∧
  Sql.execute_write_query_with ascii_str (Sql.MkContext db_ok) "SELECT 1" []
  = (Ok write_refusal, []) ∧
  (Sql.execute_select_query_with ascii_str (Sql.MkContext db_ok)
     "  select 1; drop table artist" []).2
  = ["  select 1; drop table artist"] ∧
  (Sql.execute_write_query (Sql.MkContext db_ok) "DROP TABLE artist" []).2
  = ["DROP TABLE artist"].
Proof.
  destruct (sql_tools_prefix_guard ascii_str (Sql.MkContext db_ok) [])
    as (Hs & Hw & Hp & _ & _ & Hk).
  split; [|split; [|split]].
  - apply Hs. reflexivity.
  - apply Hw. intros cmd Hin. unfold Sql.write_commands in Hin.
    repeat (apply elem_of_cons in Hin as [-> | Hin]); try reflexivity.
    by apply elem_of_nil in Hin.
  - apply Hp. reflexivity.
  - apply (Hk "DROP" " TABLE artist"). unfold Sql.write_commands.
    do 4 apply list_elem_of_further. apply list_elem_of_here.
Defined.

(** ** The notes cache and [correct_note] *)

Lemma load_notes_rebuild_with loader s force_reload :
  Obsidian.notes_cache s = None ∨ force_reload = true →
  Obsidian.load_notes_with loader force_reload s =
  (Ok (Obsidian.notes_of (loader (Obsidian.vault s))),
   Obsidian.MkStore (Obsidian.vault s)
     (Some (Obsidian.notes_of (loader (Obsidian.vault s))))
     (S (Obsidian.loads s))).
Proof.
  unfold Obsidian.load_notes_with. intros [H | ->].
  - by rewrite H.
  - by destruct (Obsidian.notes_cache s).
Qed.

Lemma load_notes_cached_with loader s notes :
  Obsidian.notes_cache s = Some notes →
  Obsidian.load_notes_with loader false s = (Ok notes, s).
Proof. unfold Obsidian.load_notes_with. by intros ->. Qed.

Lemma load_notes_rebuild s force_reload :
  Obsidian.notes_cache s = None ∨ force_reload = true →
  Obsidian.load_notes force_reload s =
  (Ok (fresh_notes (Obsidian.vault s)),
   Obsidian.MkStore (Obsidian.vault s) (Some (fresh_notes (Obsidian.vault s)))
     (S (Obsidian.loads s))).
Proof. apply load_notes_rebuild_with. Qed.

Lemma load_notes_cached s notes :
  Obsidian.notes_cache s = Some notes →
  Obsidian.load_notes false s = (Ok notes, s).
Proof. apply load_notes_cached_with. Qed.

Lemma load_notes_fills s force_reload :
  ∃ notes,
    (Obsidian.load_notes force_reload s).1 = Ok notes ∧
    Obsidian.notes_cache (Obsidian.load_notes force_reload s).2 = Some notes.
Proof.
  unfold Obsidian.load_notes, Obsidian.load_notes_with.
  destruct (Obsidian.notes_cache s) as [notes|] eqn:Hc; [destruct force_reload|];
    simpl; eauto.
Qed.

Lemma default_calls_cached edits : ∀ s notes,
  Obsidian.notes_cache s = Some notes →
  Forall (λ r, r = Ok notes) (default_calls edits s).1 ∧
  Obsidian.loads (default_calls edits s).2 = Obsidian.loads s ∧
  Obsidian.notes_cache (default_calls edits s).2 = Some notes.
Proof.
  induction edits as [|files edits IH]; intros s notes Hc; simpl.
  - by repeat split.
  - rewrite (load_notes_cached _ notes) by done. simpl.
    destruct (IH (Obsidian.MkStore files (Obsidian.notes_cache s) (Obsidian.loads s))
                notes Hc) as (Hr & Hl & Hn).
    repeat split; [by constructor | done | done].
Qed.

(** C10.  A call of [load_notes] with an empty cache, or with
    [force_reload=True], reads the vault and rebuilds the cache; a call with
    [force_reload=False] on a filled cache returns the cached list and reads
    nothing; so after any call, default calls all return what that call
    returned, whatever happens to the vault in between, and the loader does
    not run again. *)
Theorem load_notes_lazy_cache s force_reload :
  (Obsidian.notes_cache s = None ∨ force_reload = true →
   Obsidian.load_notes force_reload s =
   (Ok (fresh_notes (Obsidian.vault s)),
    Obsidian.MkStore (Obsidian.vault s) (Some (fresh_notes (Obsidian.vault s)))
      (S (Obsidian.loads s)))) ∧
  (∀ notes,
     Obsidian.notes_cache s = Some notes →
     Obsidian.load_notes false s = (Ok notes, s)) ∧
  (∀ edits,
     let first := Obsidian.load_notes force_reload s in
     let later := default_calls edits first.2 in
     Forall (λ r, r = first.1) later.1 ∧
     Obsidian.loads later.2 = Obsidian.loads first.2 ∧
     Obsidian.notes_cache later.2 = Obsidian.notes_cache first.2).
Proof.
  split; [apply load_notes_rebuild | split; [apply load_notes_cached |]].
  intros edits. cbv zeta.
  destruct (load_notes_fills s force_reload) as (notes & Hr & Hc).
  rewrite Hr, Hc. by apply default_calls_cached.
Qed.

Lemma load_notes_lazy_cache_witness :
  Obsidian.load_notes false (Obsidian.MkStore two_notes None 0) =
  (Ok [Obsidian.MkNote "A" "old text"; Obsidian.MkNote "B" "bee"],
   two_notes_loaded) ∧
  Obsidian.load_notes false two_notes_loaded =
  (Ok [Obsidian.MkNote "A" "old text"; Obsidian.MkNote "B" "bee"],
   two_notes_loaded).
Proof.
  split.
  - rewrite (proj1 (load_notes_lazy_cache (Obsidian.MkStore two_notes None 0) false))
      by (left; reflexivity).
    vm_compute. reflexivity.
  - apply (proj1 (proj2 (load_notes_lazy_cache two_notes_loaded false))).
    vm_compute. reflexivity.
Defined.

(** The four ways [correct_note] ends, whatever the loader. *)
Lemma correct_note_missing_with loader s note_title new_note_title new_note_content :
  Obsidian.vault s !! (note_title +:+ ".md") = None →
  Obsidian.correct_note_with loader note_title new_note_title new_note_content s =
  (Ok ("Error: '" +:+ note_title +:+ "' not found"), s).
Proof.
  intros Hold.
  unfold Obsidian.correct_note_with, mbind, M_bind, bind, Obsidian.path_exists.
  rewrite bool_decide_eq_false_2; [done|]. rewrite Hold. by intros [? ?].
Qed.

Lemma correct_note_clash_with loader s note_title new_note_title new_note_content :
  note_title ≠ new_note_title →
  is_Some (Obsidian.vault s !! (note_title +:+ ".md")) →
  is_Some (Obsidian.vault s !! (new_note_title +:+ ".md")) →
  Obsidian.correct_note_with loader note_title new_note_title new_note_content s =
  (Ok ("Error: '" +:+ new_note_title +:+ "' already exists"),
   Obsidian.MkStore
     (<[note_title +:+ ".md" := new_note_content]> (Obsidian.vault s))
     (Obsidian.notes_cache s) (Obsidian.loads s)).
Proof.
  intros Hne Hold Hnew.
  unfold Obsidian.correct_note_with, mbind, M_bind, bind, Obsidian.path_exists,
    Obsidian.write_text.
  rewrite bool_decide_eq_true_2 by done. simpl.
  apply String.eqb_neq in Hne. rewrite Hne. simpl.
  rewrite bool_decide_eq_true_2; [done|].
  apply lookup_insert_is_Some.
  destruct (decide (note_title +:+ ".md" = new_note_title +:+ ".md")); auto.
Qed.

Lemma correct_note_update_with loader s note_title new_note_content :
  is_Some (Obsidian.vault s !! (note_title +:+ ".md")) →
  Obsidian.correct_note_with loader note_title note_title new_note_content s =
  (Ok ("'" +:+ note_title +:+ "' updated"),
   let files := <[note_title +:+ ".md" := new_note_content]> (Obsidian.vault s) in
   Obsidian.MkStore files (Some (Obsidian.notes_of (loader files)))
     (S (Obsidian.loads s))).
Proof.
  intros Hold.
  unfold Obsidian.correct_note_with, mbind, M_bind, bind, Obsidian.path_exists,
    Obsidian.write_text.
  rewrite bool_decide_eq_true_2 by done. simpl.
  rewrite String.eqb_refl. simpl.
  by rewrite load_notes_rebuild_with by by right.
Qed.

Lemma correct_note_rename_with loader s note_title new_note_title new_note_content :
  note_title ≠ new_note_title →
  is_Some (Obsidian.vault s !! (note_title +:+ ".md")) →
  Obsidian.vault s !! (new_note_title +:+ ".md") = None →
  Obsidian.correct_note_with loader note_title new_note_title new_note_content s =
  (Ok ("Updated and renamed to '" +:+ new_note_title +:+ "'"),
   let files :=
     <[new_note_title +:+ ".md" := new_note_content]>
       (delete (note_title +:+ ".md")
          (<[note_title +:+ ".md" := new_note_content]> (Obsidian.vault s))) in
   Obsidian.MkStore files (Some (Obsidian.notes_of (loader files)))
     (S (Obsidian.loads s))).
Proof.
  intros Hne Hold Hnew.
  assert (note_title +:+ ".md" ≠ new_note_title +:+ ".md") as Hp.
  { intros Heq. rewrite Heq in Hold. rewrite Hnew in Hold. by destruct Hold. }
  unfold Obsidian.correct_note_with, mbind, M_bind, bind, Obsidian.path_exists,
    Obsidian.write_text, Obsidian.rename.
  rewrite bool_decide_eq_true_2 by done. simpl.
  apply String.eqb_neq in Hne. rewrite Hne. simpl.
  rewrite bool_decide_eq_false_2.
  2:{ rewrite lookup_insert_ne, Hnew by done. by intros [? ?]. }
  simpl. rewrite lookup_insert_eq.
  by rewrite load_notes_rebuild_with by by right.
Qed.

(** The same with the loader [loader_load]. *)
Lemma correct_note_missing s note_title new_note_title new_note_content :
  Obsidian.vault s !! (note_title +:+ ".md") = None →
  Obsidian.correct_note note_title new_note_title new_note_content s =
  (Ok ("Error: '" +:+ note_title +:+ "' not found"), s).
Proof. apply correct_note_missing_with. Qed.

Lemma correct_note_clash s note_title new_note_title new_note_content :
  note_title ≠ new_note_title →
  is_Some (Obsidian.vault s !! (note_title +:+ ".md")) →
  is_Some (Obsidian.vault s !! (new_note_title +:+ ".md")) →
  Obsidian.correct_note note_title new_note_title new_note_content s =
  (Ok ("Error: '" +:+ new_note_title +:+ "' already exists"),
   Obsidian.MkStore
     (<[note_title +:+ ".md" := new_note_content]> (Obsidian.vault s))
     (Obsidian.notes_cache s) (Obsidian.loads s)).
Proof. apply correct_note_clash_with. Qed.

Lemma correct_note_update s note_title new_note_content :
  is_Some (Obsidian.vault s !! (note_title +:+ ".md")) →
  Obsidian.correct_note note_title note_title new_note_content s =
  (Ok ("'" +:+ note_title +:+ "' updated"),
   let files := <[note_title +:+ ".md" := new_note_content]> (Obsidian.vault s) in
   Obsidian.MkStore files (Some (fresh_notes files)) (S (Obsidian.loads s))).
Proof. apply correct_note_update_with. Qed.

Lemma correct_note_rename s note_title new_note_title new_note_content :
  note_title ≠ new_note_title →
  is_Some (Obsidian.vault s !! (note_title +:+ ".md")) →
  Obsidian.vault s !! (new_note_title +:+ ".md") = None →
  Obsidian.correct_note note_title new_note_title new_note_content s =
  (Ok ("Updated and renamed to '" +:+ new_note_title +:+ "'"),
   let files :=
     <[new_note_title +:+ ".md" := new_note_content]>
       (delete (note_title +:+ ".md")
          (<[note_title +:+ ".md" := new_note_content]> (Obsidian.vault s))) in
   Obsidian.MkStore files (Some (fresh_notes files)) (S (Obsidian.loads s))).
Proof. apply correct_note_rename_with. Qed.

(** On the two paths that end well the cache is rebuilt from the vault as
    [correct_note] leaves it. *)
Lemma correct_note_success_reloads s note_title new_note_title new_note_content :
  is_Some (Obsidian.vault s !! (note_title +:+ ".md")) →
  note_title = new_note_title ∨
    Obsidian.vault s !! (new_note_title +:+ ".md") = None →
  cache_consistent
    (Obsidian.correct_note note_title new_note_title new_note_content s).2.
Proof.
  intros Hold [<- | Hnew].
  - by rewrite correct_note_update.
  - destruct (decide (note_title = new_note_title)) as [<- | Hne].
    + by rewrite correct_note_update.
    + by rewrite correct_note_rename.
Qed.

(** C9.  When the two titles differ and both files exist, [correct_note]
    overwrites the old file with the new content and then returns
    "Error: '<new title>' already exists": nothing is renamed, the cache and
    the count of loads are as before.  So an error return does not mean that
    the vault is unchanged: it has changed whenever the old file held another
    text. *)
Theorem correct_note_error_after_write s note_title new_note_title new_note_content :
  note_title ≠ new_note_title →
  is_Some (Obsidian.vault s !! (note_title +:+ ".md")) →
  is_Some (Obsidian.vault s !! (new_note_title +:+ ".md")) →
  let after := Obsidian.correct_note note_title new_note_title new_note_content s in
  after =
    (Ok ("Error: '" +:+ new_note_title +:+ "' already exists"),
     Obsidian.MkStore
       (<[note_title +:+ ".md" := new_note_content]> (Obsidian.vault s))
       (Obsidian.notes_cache s) (Obsidian.loads s)) ∧
  (Obsidian.vault s !! (note_title +:+ ".md") ≠ Some new_note_content →
   Obsidian.vault after.2 ≠ Obsidian.vault s).
Proof.
  intros Hne Hold Hnew after. subst after.
  rewrite correct_note_clash by done. split; [done|].
  simpl. intros Hdiff Heq. apply Hdiff. rewrite <- Heq. apply lookup_insert_eq.
Qed.

Lemma correct_note_error_after_write_witness :
  Obsidian.correct_note "A" "B" "new text" two_notes_loaded =
    (Ok "Error: 'B' already exists",
     Obsidian.MkStore (<["A.md" := "new text"]> two_notes)
       (Obsidian.notes_cache two_notes_loaded) 1) ∧
  (Obsidian.vault two_notes_loaded !! "A.md" ≠ Some "new text" →
   Obsidian.vault (Obsidian.correct_note "A" "B" "new text" two_notes_loaded).2
   ≠ Obsidian.vault two_notes_loaded).
Proof.
  apply (correct_note_error_after_write two_notes_loaded "A" "B" "new text").
  - discriminate.
  - exists "old text". vm_compute. reflexivity.
  - exists "bee". vm_compute. reflexivity.
Defined.

(** C5 fails on the error path of C9.  With notes A and B in the vault and
    the cache filled, [correct_note("A", "B", "new text")] rewrites A.md and
    returns the error without a call of [load_notes]: the next
    [inspect_notes] still gives the old text of A, which is not what the vault
    holds. *)
Theorem correct_note_leaves_cache_stale :
  let after := Obsidian.correct_note "A" "B" "new text" two_notes_loaded in
  after.1 = Ok "Error: 'B' already exists" ∧
  Obsidian.vault two_notes_loaded !! "A.md" = Some "old text" ∧
  Obsidian.vault after.2 !! "A.md" = Some "new text" ∧
  Obsidian.loads after.2 = Obsidian.loads two_notes_loaded ∧
  (Obsidian.inspect_notes after.2).1
    = Ok [Obsidian.MkNote "A" "old text"; Obsidian.MkNote "B" "bee"] ∧
  fresh_notes (Obsidian.vault after.2)
    = [Obsidian.MkNote "A" "new text"; Obsidian.MkNote "B" "bee"] ∧
  ¬ cache_consistent after.2.
Proof.
  cbv zeta. repeat split; try (vm_compute; reflexivity).
  unfold cache_consistent. vm_compute. discriminate.
Qed.

(** ** The drivers *)

Lemma prompt_outcome_verdict py lines v :
  prompt_outcome py lines = Ok v → v = "approve" ∨ v = "reject".
Proof.
  unfold prompt_outcome. destruct (first_valid py lines); [|done].
  destruct (str_in _ _); intros [= <-]; auto.
Qed.

Lemma email_prompt_verdict received_email email c v c' :
  Email.get_user_decision received_email email c = (Ok v, c') →
  v = "approve" ∨ v = "reject".
Proof.
  intros H. apply (prompt_outcome_verdict ascii_str (stdin c)).
  change (Ok v) with (Ok v, c').1. rewrite <- H.
  symmetry. apply email_loop_outcome.
Qed.

Lemma sql_prompt_verdict preview_query_impact query db c v c' :
  Sql.get_user_decision preview_query_impact query db c = (Ok v, c') →
  v = "approve" ∨ v = "reject".
Proof.
  intros H. apply (prompt_outcome_verdict ascii_str (stdin c)).
  change (Ok v) with (Ok v, c').1. rewrite <- H.
  symmetry. apply sql_loop_outcome.
Qed.


(** A prompt that returns has read at least one line. *)
Lemma email_loop_consumes py lines : ∀ out v c',
  Email.decision_loop_with py lines out = (Ok v, c') →
  length (stdin c') < length lines.
Proof.
  induction lines as [|line lines IH]; intros out v c'; simpl; [done|].
  repeat (match goal with
          | |- context [str_in ?x ?l] => destruct (str_in x l)
          end);
    try (intros [= <- <-]; simpl; lia).
  intros H%IH. lia.
Qed.

Lemma email_prompt_consumes received_email email c v c' :
  Email.get_user_decision received_email email c = (Ok v, c') →
  length (stdin c') < length (stdin c).
Proof.
  unfold Email.get_user_decision, Email.get_user_decision_with.
  apply email_loop_consumes.
Qed.


(** A trace that follows the protocol ends at the first result without an
    interrupt. *)
Lemma protocol_completion_final cs : ∀ last,
  resumes_only_when_suspended last cs →
  (interrupt last = None → cs = []) ∧ completion_is_final cs.
Proof.
  induction cs as [|[input r] cs IH]; intros last H.
  - split; [done|]. intros pre ???. by destruct pre.
  - destruct H as (_ & Hs & Hr). split.
    { intros Hn. rewrite Hn in Hs. by destruct Hs. }
    intros pre input' res post Heq Hn.
    destruct pre as [|c pre]; simplify_eq/=.
    + by apply (IH res).
    + destruct r as [res'|e].
      * destruct (IH res' Hr) as [_ Hf]. by apply (Hf pre input' res post).
      * by destruct pre.
Qed.

Section EmailDriver.

Context {AgentState : Type} (agent_invoke : Input → M AgentState InvokeResult).

(** The calls of the email loop, from a result on: they follow the protocol
    and every batch is one verdict. *)
Lemma email_main_loop_trace rounds : ∀ result w,
  ∃ new,
    Email.calls (Email.main_loop AgentState agent_invoke rounds result w).2
    = Email.calls w ++ new ∧
    resumes_only_when_suspended result new ∧
    Forall single_verdict_batch (resume_batches new).
Proof.
  induction rounds as [|rounds IH]; intros result w; simpl;
    destruct (interrupt result) as [interrupts|] eqn:Hi;
    try (exists []; by rewrite app_nil_r).
  unfold mbind, M_bind, bind, Email.index_last, last_item.
  destruct (last interrupts) as [last_interrupt|];
    [|exists []; by rewrite app_nil_r].
  simpl.
  destruct (last (action_requests last_interrupt)) as [action_request|];
    [|exists []; by rewrite app_nil_r].
  simpl. unfold Email.on_console.
  destruct (Email.get_user_decision _ _ (Email.console w)) as [[v|e] c'] eqn:Hg;
    [|exists []; by rewrite app_nil_r].
  unfold Email.invoke. simpl.
  destruct (agent_invoke _ (Email.agent w)) as [[res|e] a] eqn:Ha.
  - destruct (IH res (Email.MkWorld c' a
                (Email.calls w ++ [(Resume [ {[ "type" := v ]} ], Ok res)])))
      as (new & Hc & Hp & Hb).
    exists ((Resume [ {[ "type" := v ]} ], Ok res) :: new).
    rewrite Hc. simpl. rewrite <- app_assoc. split; [done|]. split.
    + repeat split; eauto.
    + constructor; [|done]. exists v. eauto using email_prompt_verdict.
  - exists [(Resume [ {[ "type" := v ]} ], Raise e)]. split; [done|]. split.
    + repeat split; eauto.
    + constructor; [|constructor]. exists v. eauto using email_prompt_verdict.
Qed.

(** The calls of [main]: the start, then the calls of the loop. *)
Lemma email_main_trace rounds w :
  ∃ r new,
    Email.calls (Email.main AgentState agent_invoke rounds w).2
    = Email.calls w ++ (Start [MkMessage HumanMessage None Email.prompt], r) :: new ∧
    match r with
    | Ok res => resumes_only_when_suspended res new
    | Raise _ => new = []
    end ∧
    Forall single_verdict_batch (resume_batches new).
Proof.
  unfold Email.main, mbind, M_bind, bind. simpl. unfold Email.invoke. simpl.
  destruct (agent_invoke _ (Email.agent w)) as [[res|e] a] eqn:Ha;
    [|by exists (Raise e), []].
  match goal with
  | |- context [Email.main_loop _ _ rounds res ?w'] =>
      destruct (email_main_loop_trace rounds res w') as (new & Hc & Hp & Hb);
      destruct (Email.main_loop _ _ rounds res w') as [[[final|]|e] w1] eqn:Hl
  end; simpl in Hc; exists (Ok res), new; rewrite <- app_assoc in Hc;
    (split; [|done]); try done.
  simpl. by destruct (messages final) as [[|m ms]|].
Qed.

(** The bound on the rounds is harmless: every round reads at least one line,
    so with more rounds than lines left the loop is never cut short. *)
Lemma email_main_loop_bound rounds : ∀ result w,
  length (stdin (Email.console w)) < rounds →
  (Email.main_loop AgentState agent_invoke rounds result w).1 ≠ Ok None.
Proof.
  induction rounds as [|rounds IH]; intros result w Hlen; [lia|]. simpl.
  destruct (interrupt result) as [interrupts|]; [|done].
  unfold mbind, M_bind, bind, Email.index_last, last_item.
  destruct (last interrupts) as [last_interrupt|]; [|done]. simpl.
  destruct (last (action_requests last_interrupt)) as [action_request|]; [|done].
  simpl. unfold Email.on_console.
  destruct (Email.get_user_decision _ _ (Email.console w)) as [[v|e] c'] eqn:Hg;
    [|done].
  apply email_prompt_consumes in Hg.
  unfold Email.invoke. simpl.
  destruct (agent_invoke _ (Email.agent w)) as [[res|e] a]; [|done].
  apply IH. simpl. lia.
Qed.

Lemma email_main_bound rounds w :
  length (stdin (Email.console w)) < rounds →
  (Email.main AgentState agent_invoke rounds w).1 ≠ Ok None.
Proof.
  intros Hlen. unfold Email.main, mbind, M_bind, bind. simpl.
  unfold Email.invoke. simpl.
  destruct (agent_invoke _ (Email.agent w)) as [[res|e] a]; [|done].
  match goal with
  | |- context [Email.main_loop _ _ rounds res ?w'] =>
      pose proof (email_main_loop_bound rounds res w' Hlen) as Hb;
      destruct (Email.main_loop _ _ rounds res w') as [[[final|]|e] w1]
  end; try done.
  simpl. by destruct (messages final) as [[|m ms]|].
Qed.

End EmailDriver.

Section SqlDriver.

Context (preview_query_impact : string → Sql.SQLDatabase → string).
Context {AgentState : Type}.
Context (agent_invoke : Input → Sql.RuntimeContext → M AgentState InvokeResult).
Context (the_db : Sql.SQLDatabase).

Lemma sql_main_loop_trace rounds : ∀ result w,
  ∃ new,
    Sql.calls
      (Sql.main_loop preview_query_impact AgentState agent_invoke the_db
         rounds result w).2
    = Sql.calls w ++ new ∧
    resumes_only_when_suspended result new ∧
    Forall single_verdict_batch (resume_batches new).
Proof.
  induction rounds as [|rounds IH]; intros result w; simpl;
    destruct (interrupt result) as [interrupts|] eqn:Hi;
    try (exists []; by rewrite app_nil_r).
  unfold mbind, M_bind, bind, Sql.index_last, last_item.
  destruct (last interrupts) as [last_interrupt|];
    [|exists []; by rewrite app_nil_r].
  simpl.
  destruct (last (action_requests last_interrupt)) as [action_request|];
    [|exists []; by rewrite app_nil_r].
  simpl. unfold Sql.on_console.
  destruct (Sql.get_user_decision _ _ _ (Sql.console w)) as [[v|e] c'] eqn:Hg;
    [|exists []; by rewrite app_nil_r].
  unfold Sql.invoke. simpl.
  destruct (agent_invoke _ _ (Sql.agent w)) as [[res|e] a] eqn:Ha.
  - destruct (IH res (Sql.MkWorld c' a
                (Sql.calls w ++ [(Resume [ {[ "type" := v ]} ], Ok res)])))
      as (new & Hc & Hp & Hb).
    exists ((Resume [ {[ "type" := v ]} ], Ok res) :: new).
    rewrite Hc. simpl. rewrite <- app_assoc. split; [done|]. split.
    + repeat split; eauto.
    + constructor; [|done]. exists v. eauto using sql_prompt_verdict.
  - exists [(Resume [ {[ "type" := v ]} ], Raise e)]. split; [done|]. split.
    + repeat split; eauto.
    + constructor; [|constructor]. exists v. eauto using sql_prompt_verdict.
Qed.

Lemma sql_main_trace rounds w :
  ∃ r new,
    Sql.calls
      (Sql.main preview_query_impact AgentState agent_invoke the_db rounds w).2
    = Sql.calls w ++ (Start [MkMessage HumanMessage None Sql.prompt], r) :: new ∧
    match r with
    | Ok res => resumes_only_when_suspended res new
    | Raise _ => new = []
    end ∧
    Forall single_verdict_batch (resume_batches new).
Proof.
  unfold Sql.main, mbind, M_bind, bind. simpl. unfold Sql.invoke. simpl.
  destruct (agent_invoke _ _ (Sql.agent w)) as [[res|e] a] eqn:Ha;
    [|by exists (Raise e), []].
  match goal with
  | |- context [Sql.main_loop _ _ _ _ rounds res ?w'] =>
      destruct (sql_main_loop_trace rounds res w') as (new & Hc & Hp & Hb);
      destruct (Sql.main_loop _ _ _ _ rounds res w') as [[[final|]|e] w1] eqn:Hl
  end; simpl in Hc; exists (Ok res), new; rewrite <- app_assoc in Hc;
    (split; [|done]); try done.
  simpl. by destruct (messages final) as [[|m ms]|].
Qed.

End SqlDriver.

Section ObsidianDriver.

Context {AgentState : Type} (agent_invoke : Input → M AgentState InvokeResult).
Context (vault_of : AgentState → gmap string string).




End ObsidianDriver.

(** ** The engine *)



Section EngineProps.

Context (plan : list Engine.Message → list (string * string) → Engine.PlannerResponse).
Context (registry : Engine.Registry).


Lemma resume_not_suspended turns thread ds st run :
  Engine.store st !! thread = Some run →
  Engine.status run ≠ Engine.suspended →
  Engine.resume plan registry turns thread ds st
  = Some (Engine.Failure Engine.NotSuspendedError, st).
Proof.
  intros Hs Hst. unfold Engine.resume. rewrite Hs.
  by destruct (Engine.status run).
Qed.

(** The drive loop ends a run in the status of its outcome. *)
Lemma drive_status turns : ∀ thread log calls o run calls',
  Engine.drive plan registry turns thread log calls
  = Some (inr (o, run), calls') →
  match o with
  | Engine.Completed _ =>
      Engine.status run = Engine.completed ∧ Engine.pending_requests run = []
  | Engine.Suspended pending =>
      Engine.status run = Engine.suspended ∧
      Engine.pending_requests run = pending ∧ pending ≠ []
  end.
Proof.
  induction turns as [|turns IH]; intros thread log calls o run calls'; [done|].
  cbn [Engine.drive].
  destruct (Engine.response_tool_calls _) as [|r requested] eqn:Hr.
  { by intros [= <- <- <-]. }
  destruct (Engine.partition_calls registry (r :: requested))
    as [e | [gated_calls ungated_calls]]; [done|].
  destruct gated_calls as [|g gated_calls].
  - apply IH.
  - by intros [= <- <- <-].
Qed.

Lemma finish_outcome thread st r o st' :
  Engine.finish thread st r = Some (Engine.Outcome o, st') →
  ∃ run calls,
    r = Some (inr (o, run), calls) ∧
    st' = Engine.MkEngine (<[thread := run]> (Engine.store st)) calls.
Proof.
  unfold Engine.finish. destruct r as [[[e | [o' run]] calls]|]; [done| |done].
  intros [= <- <-]. eauto.
Qed.

(** An invocation that gives an outcome went through the drive loop and saved
    the run state. *)
Lemma start_outcome turns thread text st o st' :
  Engine.start plan registry turns thread text st
  = Some (Engine.Outcome o, st') →
  ∃ log calls run calls',
    Engine.drive plan registry turns thread log calls
    = Some (inr (o, run), calls') ∧
    st' = Engine.MkEngine (<[thread := run]> (Engine.store st)) calls'.
Proof.
  unfold Engine.start. destruct (Engine.store st !! thread); [done|].
  intros (run & calls' & Hd & ->)%finish_outcome. eauto 6.
Qed.

Lemma resume_outcome turns thread ds st o st' :
  Engine.resume plan registry turns thread ds st
  = Some (Engine.Outcome o, st') →
  ∃ log calls run calls',
    Engine.drive plan registry turns thread log calls
    = Some (inr (o, run), calls') ∧
    st' = Engine.MkEngine (<[thread := run]> (Engine.store st)) calls'.
Proof.
  unfold Engine.resume. destruct (Engine.store st !! thread) as [run|]; [|done].
  destruct (Engine.status run); try done.
  destruct (negb _); [done|].
  destruct (Engine.apply_decisions _ _ _ _) as [[e|log] calls]; [done|].
  intros (run' & calls' & Hd & ->)%finish_outcome. eauto 6.
Qed.

Lemma completed_then_resume_fails turns thread log calls text run calls' st ds turns' :
  Engine.drive plan registry turns thread log calls
  = Some (inr (Engine.Completed text, run), calls') →
  let st' := Engine.MkEngine (<[thread := run]> (Engine.store st)) calls' in
  Engine.resume plan registry turns' thread ds st'
  = Some (Engine.Failure Engine.NotSuspendedError, st').
Proof.
  intros Hd st'. apply drive_status in Hd as [Hc _].
  apply (resume_not_suspended _ _ _ _ run).
  - apply lookup_insert_eq.
  - by rewrite Hc.
Qed.

End EngineProps.




(** The scenario of section 8 of the specification, run on the model:
    [start] executes read_email and suspends on send_email; the rejection is
    recorded in the log, send_email is never invoked, and the run completes. *)
Example scenario_of_the_specification :
  (Engine.start scenario_plan scenario_registry 5 "t1" "read my email and reply"
     engine_empty)
  = Some (Engine.Outcome (Engine.Suspended [send_request]), engine_suspended) ∧
  (Engine.resume scenario_plan scenario_registry 5 "t1"
     [Engine.MkDecision (Some "call_2") Engine.reject] engine_suspended)
  = Some (Engine.Outcome (Engine.Completed "The email was not sent."),
          engine_completed) ∧
  Engine.tool_name <$> Engine.invoked engine_completed = ["read_email"] ∧
  (Engine.content <$>
     (filter (λ m, Engine.tool_call_id m = Some "call_2")
        (default [] (Engine.message_log <$> Engine.store engine_completed !! "t1"))))
  = [Engine.rejection_marker].
Proof. repeat split; vm_compute; reflexivity. Qed.

(** ** Resume batches (C1) *)







(** ** What the drivers show of a suspension (C2) *)

Lemma last_snoc_item {A} (l : list A) x : last_item (l ++ [x]) = Some x.
Proof. apply last_snoc. Qed.

(** A round of the email loop looks at the last request of the last interrupt
    and at nothing else of the interrupts. *)
Lemma email_loop_last_request_only {AgentState}
    (agent_invoke : Input → M AgentState InvokeResult)
    rounds interrupts requests request msgs w :
  Email.main_loop AgentState agent_invoke rounds
    (MkResult (Some (interrupts ++ [MkInterrupt (requests ++ [request])])) msgs) w
  = Email.main_loop AgentState agent_invoke rounds
      (MkResult (Some [MkInterrupt [request]]) msgs) w.
Proof.
  destruct rounds as [|rounds]; [done|]. simpl.
  unfold mbind, M_bind, bind, Email.index_last.
  rewrite last_snoc_item. simpl. by rewrite last_snoc_item.
Qed.

Lemma sql_loop_last_request_only preview_query_impact {AgentState}
    (agent_invoke : Input → Sql.RuntimeContext → M AgentState InvokeResult)
    the_db rounds interrupts requests request msgs w :
  Sql.main_loop preview_query_impact AgentState agent_invoke the_db rounds
    (MkResult (Some (interrupts ++ [MkInterrupt (requests ++ [request])])) msgs) w
  = Sql.main_loop preview_query_impact AgentState agent_invoke the_db rounds
      (MkResult (Some [MkInterrupt [request]]) msgs) w.
Proof.
  destruct rounds as [|rounds]; [done|]. simpl.
  unfold mbind, M_bind, bind, Sql.index_last.
  rewrite last_snoc_item. simpl. by rewrite last_snoc_item.
Qed.

(** C2 fails in the email driver (and, by the lemma above, in the SQL driver).
    On a suspension that carries two requests, an email to alice and an email
    to bob, [main] shows the email to bob only, asks once, and resumes with
    one decision. *)
Theorem email_driver_shows_last_request_only :
  let script := two_request_script in
  let after := (Email.main _ scripted 5 (email_world script ["y"])).2 in
  (pending_of <$> script !! 0%nat) = Some [send_to "alice"; send_to "bob"] ∧
  emails_shown (Email.console after)
  = ["Email to send:" +:+ NL +:+ "To: bob" +:+ NL +:+ "Subject: Meeting"
     +:+ NL +:+ NL +:+ "Fine."] ∧
  resume_batches (Email.calls after) = [[ {[ "type" := "approve" ]} ]] ∧
  stdin (Email.console after) = [].
Proof. cbv zeta. repeat split; vm_compute; reflexivity. Qed.

(** The Obsidian driver does go through all the requests of the suspension:
    both notes are shown.  It resumes after each of them, though, so the
    second resume is issued on a run that the first one completed. *)
Example obsidian_driver_shows_every_request :
  let after :=
    (Obsidian.main _ scripted_vault snd 5
       (obsidian_world two_notes_script ["y"; "n"])).2 in
  notes_shown (Obsidian.console after) = ["CURRENT: A"; "CURRENT: B"] ∧
  resume_batches (Obsidian.calls after)
  = [[ {[ "type" := "approve" ]} ]; [ {[ "type" := "reject" ]} ]] ∧
  ¬ completion_is_final (Obsidian.calls after).
Proof.
  cbv zeta. split; [vm_compute; reflexivity|]. split; [vm_compute; reflexivity|].
  intros Hf.
  assert (Obsidian.calls
            (Obsidian.main _ scripted_vault snd 5
               (obsidian_world two_notes_script ["y"; "n"])).2
          = [(Start [MkMessage HumanMessage None Obsidian.prompt],
              Ok (MkResult (Some [MkInterrupt [correct "A"; correct "B"]]) (Some [])))]
            ++ (Resume [ {[ "type" := "approve" ]} ], Ok final_result)
            :: [(Resume [ {[ "type" := "reject" ]} ], Ok final_result)]) as Ht.
  { vm_compute. reflexivity. }
  by specialize (Hf _ _ _ _ Ht eq_refl).
Qed.

(** ** Completed is terminal (C6) *)

Lemma start_then_protocol_final start r new :
  match r with
  | Ok res => resumes_only_when_suspended res new
  | Raise _ => new = []
  end →
  completion_is_final ((start, r) :: new).
Proof.
  intros H pre input res post Heq Hn.
  destruct pre as [|c pre]; simplify_eq/=.
  - by apply (protocol_completion_final _ res).
  - destruct r as [res'|e].
    + destruct (protocol_completion_final _ _ H) as [_ Hf].
      by apply (Hf pre input res post).
    + by destruct pre.
Qed.

(** C6.  In the email driver (and in the SQL driver, which has the same loop),
    no call of [agent.invoke] follows one that returned a result without
    "__interrupt__": the loop issues no further resume.  On the engine of the
    specification, once [start] or [resume] has returned [Completed] for a
    thread, every further [resume] of that thread fails with
    [NotSuspendedError] and changes nothing. *)
Theorem completed_is_terminal :
  (∀ AgentState agent_invoke rounds w,
     Email.calls w = [] →
     completion_is_final
       (Email.calls (Email.main AgentState agent_invoke rounds w).2)) ∧
  (∀ preview_query_impact AgentState agent_invoke the_db rounds w,
     Sql.calls w = [] →
     completion_is_final
       (Sql.calls
          (Sql.main preview_query_impact AgentState agent_invoke the_db
             rounds w).2)) ∧
  (∀ plan registry turns thread st final_text st',
     (∃ user_text,
        Engine.start plan registry turns thread user_text st
        = Some (Engine.Outcome (Engine.Completed final_text), st')) ∨
     (∃ ds,
        Engine.resume plan registry turns thread ds st
        = Some (Engine.Outcome (Engine.Completed final_text), st')) →
     ∀ turns' ds',
       Engine.resume plan registry turns' thread ds' st'
       = Some (Engine.Failure Engine.NotSuspendedError, st')).
Proof.
  split; [|split].
  - intros AgentState agent_invoke rounds w Hw.
    destruct (email_main_trace agent_invoke rounds w) as (r & new & -> & Hp & _).
    rewrite Hw. by apply start_then_protocol_final.
  - intros pv AgentState agent_invoke the_db rounds w Hw.
    destruct (sql_main_trace pv agent_invoke the_db rounds w)
      as (r & new & -> & Hp & _).
    rewrite Hw. by apply start_then_protocol_final.
  - intros plan registry turns thread st final_text st' H turns' ds'.
    assert (∃ log calls run calls',
              Engine.drive plan registry turns thread log calls
              = Some (inr (Engine.Completed final_text, run), calls') ∧
              st' = Engine.MkEngine (<[thread := run]> (Engine.store st)) calls')
      as (log & calls & run & calls' & Hd & ->).
    { destruct H as [[user_text H] | [ds H]];
        eauto using start_outcome, resume_outcome. }
    by eapply completed_then_resume_fails.
Qed.

Lemma completed_is_terminal_witness :
  completion_is_final
    (Email.calls
       (Email.main _ scripted 5 (email_world one_request_script ["y"])).2) ∧
  Engine.resume scenario_plan scenario_registry 5 "t1"
    [Engine.MkDecision (Some "call_2") Engine.approve] engine_completed
  = Some (Engine.Failure Engine.NotSuspendedError, engine_completed).
Proof.
  destruct completed_is_terminal as (He & _ & Hr).
  split.
  - apply He. reflexivity.
  - apply (Hr scenario_plan scenario_registry 5%nat "t1" engine_suspended
             "The email was not sent.").
    right. exists [Engine.MkDecision (Some "call_2") Engine.reject].
    vm_compute. reflexivity.
Defined.

(** ** Rejection (C7) *)



(** * Further properties of the code *)

(** ** The SQL tools *)

Lemma prefix_head c p s :
  String.prefix (String c p) s = true → ∃ s', s = String c s'.
Proof.
  destruct s as [|b s]; simpl; [done|].
  destruct (ascii_dec c b) as [->|]; [eauto|done].
Qed.

Lemma select_excludes_write query :
  select_guard query = true → write_guard query = false.
Proof.
  unfold select_guard, write_guard, startswith.
  intros [u ->]%prefix_head. reflexivity.
Qed.

Lemma journal_grew (journal : Sql.Journal) query : journal ++ [query] ≠ journal.
Proof.
  intros H. apply (f_equal length) in H. rewrite length_app in H. simpl in H. lia.
Qed.

(** X1.  No query is run by both SQL tools: if [execute_select_query] hands a
    query to [db.run] then [execute_write_query] refuses the same query
    without touching the database, and the other way round. *)
Theorem sql_tools_never_both_run context query journal :
  ((Sql.execute_select_query context query journal).2 ≠ journal →
   Sql.execute_write_query context query journal = (Ok write_refusal, journal)) ∧
  ((Sql.execute_write_query context query journal).2 ≠ journal →
   Sql.execute_select_query context query journal = (Ok select_refusal, journal)).
Proof.
  split; intros Hrun.
  - apply write_refused, select_excludes_write.
    destruct (select_guard query) eqn:Hg; [done|].
    by rewrite select_refused in Hrun.
  - apply select_refused.
    destruct (select_guard query) eqn:Hg; [|done].
    by rewrite write_refused in Hrun by by apply select_excludes_write.
Qed.

Lemma sql_tools_never_both_run_witness :
  Sql.execute_write_query (Sql.MkContext db_ok) "select 1" []
  = (Ok write_refusal, []).
Proof.
  apply (proj1 (sql_tools_never_both_run (Sql.MkContext db_ok) "select 1" [])).
  vm_compute. discriminate.
Defined.

(** X2.  With [strip] and [upper] as Python has them ([py]), on every text:
    the payload of a SQL tool begins with "Error:" exactly when the tool
    refused the query (its guard failed) or [db.run] raised on it; the payload
    of a query that ran well never does. *)
Theorem sql_error_prefix_exact (py : StrMethods) context query journal payload :
  ((Sql.execute_select_query_with py context query journal).1 = Ok payload →
   (startswith payload "Error:" = true ↔
    select_guard_with py query = false ∨
    ∃ e, Sql.run (Sql.db context) query = Raise e)) ∧
  ((Sql.execute_write_query_with py context query journal).1 = Ok payload →
   (startswith payload "Error:" = true ↔
    write_guard_with py query = false ∨
    ∃ e, Sql.run (Sql.db context) query = Raise e)).
Proof.
  split.
  - destruct (select_guard_with py query) eqn:Hg.
    + rewrite select_passed_with by done. simpl.
      destruct (Sql.run _ _) as [result|e]; intros [= <-].
      * split; [done|]. by intros [? | [e ?]].
      * split; [eauto|done].
    + rewrite select_refused_with by done. intros [= <-]. split; [auto|done].
  - destruct (write_guard_with py query) eqn:Hg.
    + rewrite write_passed_with by done. simpl.
      destruct (Sql.run _ _) as [result|e]; intros [= <-].
      * split; [done|]. by intros [? | [e ?]].
      * split; [eauto|done].
    + rewrite write_refused_with by done. intros [= <-]. split; [auto|done].
Qed.

Lemma sql_error_prefix_exact_witness :
  startswith ("Query executed successfully:" +:+ NL +:+ "[(1,)]") "Error:" = true ↔
  select_guard_with ascii_str "SELECT 1" = false ∨
  ∃ e, Sql.run db_ok "SELECT 1" = Raise e.
Proof.
  apply (proj1 (sql_error_prefix_exact ascii_str (Sql.MkContext db_ok) "SELECT 1" []
                  ("Query executed successfully:" +:+ NL +:+ "[(1,)]"))).
  vm_compute. reflexivity.
Defined.

Lemma lstrip_blank s : all_chars isspace s = true → lstrip s = EmptyString.
Proof.
  induction s as [|c s IH]; simpl; [done|].
  intros [Hc Hs]%andb_true_iff. rewrite Hc. auto.
Qed.

Lemma strip_blank s : all_chars isspace s = true → strip s = EmptyString.
Proof. intros H. unfold strip. by rewrite lstrip_blank. Qed.

(** X3.  A query that is empty or made of white space only is refused by both
    SQL tools, and the database is not called. *)
Theorem sql_tools_refuse_blank context query journal :
  all_chars isspace query = true →
  Sql.execute_select_query context query journal = (Ok select_refusal, journal) ∧
  Sql.execute_write_query context query journal = (Ok write_refusal, journal).
Proof.
  intros Hb. split.
  - apply select_refused. unfold select_guard. by rewrite strip_blank.
  - apply write_refused. unfold write_guard. by rewrite strip_blank.
Qed.

Lemma sql_tools_refuse_blank_witness :
  Sql.execute_select_query (Sql.MkContext db_ok) "   " [] = (Ok select_refusal, []) ∧
  Sql.execute_write_query (Sql.MkContext db_ok) "   " [] = (Ok write_refusal, []).
Proof.
  apply (sql_tools_refuse_blank (Sql.MkContext db_ok) "   " []). reflexivity.
Defined.

(** ** The preview of a write query *)

Lemma replace_first_absent old new s :
  occurs old s = false → replace_first old new s = s.
Proof.
  induction s as [|c s IH]; simpl.
  - intros H%orb_false_iff. destruct H as [-> _]. done.
  - intros [Hp Hs]%orb_false_iff. rewrite Hp. by rewrite IH.
Qed.

Lemma replace_first_unfold old new s :
  replace_first old new s =
  if String.prefix old s then new +:+ drop_str (String.length old) s
  else
    match s with
    | EmptyString => EmptyString
    | String c s' => String c (replace_first old new s')
    end.
Proof. by destruct s. Qed.

Lemma prefix_app p rest : String.prefix p (p +:+ rest) = true.
Proof.
  induction p as [|c p IH]; cbv [String.append]; [apply prefix_empty|].
  fold String.append. by rewrite prefix_cons.
Qed.

Lemma drop_str_app p rest : drop_str (String.length p) (p +:+ rest) = rest.
Proof. induction p as [|c p IH]; [done|]. apply IH. Qed.

Lemma replace_first_head old new rest :
  replace_first old new (old +:+ rest) = new +:+ rest.
Proof. by rewrite replace_first_unfold, prefix_app, drop_str_app. Qed.

Lemma preview_delete query db journal :
  startswith (upper (strip query)) "DELETE" = true →
  Sql.preview_query_impact query db journal =
  (match Sql.run db (replace_first "DELETE" "SELECT *" query) with
   | Ok result => Ok ("Rows that will be deleted:" +:+ NL +:+ result)
   | Raise e => Ok ("Could not generate preview: " +:+ str_exn e)
   end, journal ++ [replace_first "DELETE" "SELECT *" query]).
Proof.
  intros Hg. unfold Sql.preview_query_impact. rewrite Hg.
  unfold try_except, mbind, M_bind, bind, Sql.db_run.
  by destruct (Sql.run db _).
Qed.

(** X4.  [preview_query_impact] never raises: whatever the query and whatever
    the database answers or raises, it returns a text; for a DELETE on whose
    preview query [db.run] raises, the text is "Could not generate preview: "
    followed by the text of the exception. *)
Theorem preview_never_raises query db journal :
  (∃ text, (Sql.preview_query_impact query db journal).1 = Ok text) ∧
  (∀ e,
     startswith (upper (strip query)) "DELETE" = true →
     Sql.run db (replace_first "DELETE" "SELECT *" query) = Raise e →
     (Sql.preview_query_impact query db journal).1
     = Ok ("Could not generate preview: " +:+ str_exn e)).
Proof.
  split.
  - unfold Sql.preview_query_impact, try_except, mbind, M_bind, bind,
      Sql.db_run, Sql.db_get_table_info.
    destruct (startswith _ "DELETE").
    { destruct (Sql.run db _); simpl; eauto. }
    destruct (startswith _ "UPDATE").
    { destruct (Re.search _ _) as [[table where_group]|]; simpl; [|eauto].
      destruct (Sql.run db _); simpl; eauto. }
    destruct (startswith _ "INSERT"); [|simpl; eauto].
    destruct (Re.search _ _) as [table|]; simpl; [|eauto].
    destruct (Sql.get_table_info db _); simpl; eauto.
  - intros e Hg He. by rewrite preview_delete, He.
Qed.

Lemma preview_never_raises_witness :
  (Sql.preview_query_impact "DELETE FROM artist" db_broken []).1
  = Ok "Could not generate preview: no such table: artist".
Proof.
  apply (proj2 (preview_never_raises "DELETE FROM artist" db_broken [])
           (Exception "no such table: artist")).
  - vm_compute. reflexivity.
  - reflexivity.
Defined.

(** X5.  The preview of a DELETE replaces the first "DELETE" in upper case
    only, while the test that selects the branch ignores the letter case.  So
    for a delete statement written without "DELETE" in upper case, the
    preview hands the statement itself to [db.run]: building the preview
    runs the delete. *)
Theorem preview_runs_lowercase_delete query db journal :
  startswith (upper (strip query)) "DELETE" = true →
  occurs "DELETE" query = false →
  (Sql.preview_query_impact query db journal).2 = journal ++ [query].
Proof.
  intros Hg Ho. rewrite preview_delete by done. simpl.
  by rewrite replace_first_absent.
Qed.

Lemma preview_runs_lowercase_delete_witness :
  (Sql.preview_query_impact "delete from artist" db_echo []).2
  = ["delete from artist"].
Proof.
  apply (preview_runs_lowercase_delete "delete from artist" db_echo []).
  - vm_compute. reflexivity.
  - vm_compute. reflexivity.
Defined.

(** X6.  For a statement that opens with DELETE in upper case, the preview
    runs the statement with that DELETE turned into SELECT *, and nothing
    else, on the database. *)
Theorem preview_delete_selects rest db journal :
  (Sql.preview_query_impact ("DELETE" +:+ rest) db journal).2
  = journal ++ ["SELECT *" +:+ rest].
Proof.
  rewrite preview_delete by keyword_guard.
  cbn [snd]. by rewrite replace_first_head.
Qed.

(** X7.  For a statement that opens with CREATE, DROP, ALTER or TRUNCATE the
    preview reads nothing from the database and says that no preview is
    available. *)
Theorem preview_unavailable_for_ddl cmd rest db journal :
  cmd ∈ unpreviewed_commands →
  Sql.preview_query_impact (cmd +:+ rest) db journal
  = (Ok Sql.preview_unavailable, journal).
Proof.
  unfold unpreviewed_commands. intros H.
  repeat (apply elem_of_cons in H as [-> | H]);
    try (by apply elem_of_nil in H);
    unfold Sql.preview_query_impact, strip; cbv [String.append];
    change (lstrip ?s) with s;
    rewrite !rstrip_cons by reflexivity; rewrite !upper_cons;
    reflexivity.
Qed.

Lemma preview_unavailable_for_ddl_witness :
  Sql.preview_query_impact "DROP TABLE artist" db_echo []
  = (Ok Sql.preview_unavailable, []).
Proof.
  apply (preview_unavailable_for_ddl "DROP" " TABLE artist" db_echo []).
  unfold unpreviewed_commands. apply list_elem_of_further, list_elem_of_here.
Defined.

Lemma isword_not_space c : Re.isword c = true → isspace c = false.
Proof. destruct c as [[] [] [] [] [] [] [] []]; vm_compute; congruence. Qed.

Lemma lstrip_word_head w s :
  w ≠ EmptyString → all_chars Re.isword w = true → lstrip (w +:+ s) = w +:+ s.
Proof.
  destruct w as [|c w]; [done|]. intros _ [Hc _]%andb_true_iff.
  cbn [String.append]. change (String c w +:+ s) with (String c (w +:+ s)).
  simpl. by rewrite (isword_not_space c).
Qed.

Lemma span_word_app w c s :
  all_chars Re.isword w = true → Re.isword c = false →
  Re.span_word (w +:+ String c s) = (w, String c s).
Proof.
  intros Hw Hc. induction w as [|a w IH].
  - change (EmptyString +:+ String c s) with (String c s). simpl. by rewrite Hc.
  - apply andb_true_iff in Hw as [Ha Hw].
    change (String a w +:+ String c s) with (String a (w +:+ String c s)).
    simpl. rewrite Ha, IH by done. done.
Qed.

Lemma word_app w c s :
  w ≠ EmptyString → all_chars Re.isword w = true → Re.isword c = false →
  Re.word (w +:+ String c s) = Some (w, String c s).
Proof.
  intros Hne Hw Hc. unfold Re.word. rewrite span_word_app by done.
  by destruct w.
Qed.

Lemma update_pattern_plain table rest :
  table ≠ EmptyString → all_chars Re.isword table = true →
  Sql.update_pattern ("UPDATE " +:+ table +:+ " SET " +:+ rest)
  = Some (table, None).
Proof.
  intros Hne Hw. unfold Sql.update_pattern.
  change ("UPDATE " +:+ table +:+ " SET " +:+ rest)
    with ("UPDATE" +:+ String " " (table +:+ String " " ("SET " +:+ rest))).
  change (Re.literal "UPDATE" ("UPDATE" +:+ ?s)) with (Some s).
  cbn [mbind option_bind]. unfold Re.spaces.
  change (isspace " ") with true. cbv iota.
  rewrite lstrip_word_head by done. cbn [mbind option_bind].
  rewrite word_app by done. cbn [mbind option_bind fst snd].
  reflexivity.
Qed.

(** X8.  The preview of an UPDATE never uses the WHERE clause of a statement
    written the usual way: for [UPDATE <table> SET <anything>] the preview
    query is [SELECT * FROM <table> ], so the rows announced as "will be
    updated" are all the rows of the table. *)
Theorem preview_update_ignores_where table rest db journal :
  table ≠ EmptyString →
  all_chars Re.isword table = true →
  (Sql.preview_query_impact ("UPDATE " +:+ table +:+ " SET " +:+ rest) db journal).2
  = journal ++ ["SELECT * FROM " +:+ table +:+ " "].
Proof.
  intros Hne Hw. unfold Sql.preview_query_impact.
  assert (upper (strip ("UPDATE " +:+ table +:+ " SET " +:+ rest))
          = "UPDATE" +:+ upper (rstrip (String " " (table +:+ " SET " +:+ rest))))
    as ->.
  { change ("UPDATE " +:+ table +:+ " SET " +:+ rest)
      with (String "U" (String "P" (String "D" (String "A" (String "T"
             (String "E" (String " " (table +:+ " SET " +:+ rest)))))))).
    unfold strip. change (lstrip ?s) with s.
    by rewrite !rstrip_cons by reflexivity. }
  change (startswith ("UPDATE" +:+ ?s) "DELETE") with false.
  change (startswith ("UPDATE" +:+ ?s) "UPDATE") with (String.prefix "" s).
  rewrite prefix_empty. cbv iota.
  assert (Re.search Sql.update_pattern ("UPDATE " +:+ table +:+ " SET " +:+ rest)
          = Some (table, None)) as ->.
  { change ("UPDATE " +:+ table +:+ " SET " +:+ rest)
      with (String "U" ("PDATE " +:+ table +:+ " SET " +:+ rest)).
    cbn [Re.search].
    change (String "U" ("PDATE " +:+ table +:+ " SET " +:+ rest))
      with ("UPDATE " +:+ table +:+ " SET " +:+ rest).
    by rewrite update_pattern_plain. }
  unfold try_except, mbind, M_bind, bind, Sql.db_run. cbn [default].
  by destruct (Sql.run db _).
Qed.

Lemma preview_update_ignores_where_witness :
  (Sql.preview_query_impact "UPDATE artist SET name = 'x' WHERE id = 3" db_echo []).2
  = ["SELECT * FROM artist "].
Proof.
  apply (preview_update_ignores_where "artist" "name = 'x' WHERE id = 3" db_echo []).
  - discriminate.
  - reflexivity.
Defined.

(** ** [correct_note] and the vault *)


Lemma free_name_absent files name :
  free_name files name = true → files !! name = None.
Proof.
  unfold free_name. intros [H _]%andb_true_iff. by apply bool_decide_eq_true in H.
Qed.



(** X10.  With plain titles, a rename that goes through (the titles differ,
    the old file exists, nothing in the vault directory has the new name)
    moves the note: the old path is gone, the new path holds the new content,
    the vault has as many files as before, the loader has run once more and
    the cache holds what it gave on the vault as it now is. *)
Theorem correct_note_renames loader s note_title new_note_title new_note_content :
  plain_title note_title = true →
  plain_title new_note_title = true →
  note_title ≠ new_note_title →
  is_Some (Obsidian.vault s !! (note_title +:+ ".md")) →
  free_name (Obsidian.vault s) (new_note_title +:+ ".md") = true →
  let after :=
    Obsidian.correct_note_with loader note_title new_note_title new_note_content s in
  after.1 = Ok ("Updated and renamed to '" +:+ new_note_title +:+ "'") ∧
  Obsidian.vault after.2 !! (note_title +:+ ".md") = None ∧
  Obsidian.vault after.2 !! (new_note_title +:+ ".md") = Some new_note_content ∧
  size (Obsidian.vault after.2) = size (Obsidian.vault s) ∧
  Obsidian.loads after.2 = S (Obsidian.loads s) ∧
  Obsidian.notes_cache after.2
  = Some (Obsidian.notes_of (loader (Obsidian.vault after.2))).
Proof.
  intros _ _ Hne Hold Hnew%free_name_absent after. subst after.
  assert (note_title +:+ ".md" ≠ new_note_title +:+ ".md") as Hp.
  { intros Heq. rewrite Heq, Hnew in Hold. by destruct Hold. }
  rewrite correct_note_rename_with by done.
  cbn [fst snd Obsidian.vault Obsidian.loads Obsidian.notes_cache].
  split; [done|]. split.
  { by rewrite lookup_insert_ne, lookup_delete_eq. }
  split; [apply lookup_insert_eq|]. split; [|done].
  rewrite delete_insert_eq.
  rewrite map_size_insert_None by by rewrite lookup_delete_ne.
  destruct Hold as [text Hold].
  rewrite <- (insert_delete_id (Obsidian.vault s) _ _ Hold) at 2.
  by rewrite map_size_insert_None by apply lookup_delete_eq.
Qed.

Lemma correct_note_renames_witness :
  let after :=
    Obsidian.correct_note_with Obsidian.loader_load "A" "C" "new text"
      two_notes_loaded in
  after.1 = Ok "Updated and renamed to 'C'" ∧
  Obsidian.vault after.2 !! "A.md" = None ∧
  Obsidian.vault after.2 !! "C.md" = Some "new text" ∧
  size (Obsidian.vault after.2) = size (Obsidian.vault two_notes_loaded) ∧
  Obsidian.loads after.2 = S (Obsidian.loads two_notes_loaded) ∧
  Obsidian.notes_cache after.2
  = Some (Obsidian.notes_of (Obsidian.loader_load (Obsidian.vault after.2))).
Proof.
  apply (correct_note_renames Obsidian.loader_load two_notes_loaded "A" "C"
           "new text").
  - reflexivity.
  - reflexivity.
  - discriminate.
  - exists "old text". vm_compute. reflexivity.
  - vm_compute. reflexivity.
Defined.

(** X11.  A correction that ends well leaves no stale cache: with plain
    titles, after an update in place or a rename that goes through, the new
    file holds the new content, and [inspect_notes] returns what the loader
    gives on the vault as the call left it, without a further load. *)
Theorem corrected_note_is_listed loader s note_title new_note_title
    new_note_content :
  plain_title note_title = true →
  plain_title new_note_title = true →
  is_Some (Obsidian.vault s !! (note_title +:+ ".md")) →
  note_title = new_note_title ∨
    free_name (Obsidian.vault s) (new_note_title +:+ ".md") = true →
  let after :=
    Obsidian.correct_note_with loader note_title new_note_title new_note_content s in
  Obsidian.vault after.2 !! (new_note_title +:+ ".md") = Some new_note_content ∧
  Obsidian.inspect_notes_with loader after.2
  = (Ok (Obsidian.notes_of (loader (Obsidian.vault after.2))), after.2).
Proof.
  intros _ _ Hold Hcase after. subst after.
  destruct (decide (note_title = new_note_title)) as [<- | Hd].
  - rewrite correct_note_update_with by done. cbn [fst snd Obsidian.vault].
    split; [apply lookup_insert_eq|].
    by apply load_notes_cached_with.
  - destruct Hcase as [? | Hnew%free_name_absent]; [done|].
    rewrite correct_note_rename_with by done. cbn [fst snd Obsidian.vault].
    split; [apply lookup_insert_eq|].
    by apply load_notes_cached_with.
Qed.

Lemma corrected_note_is_listed_witness :
  let after :=
    Obsidian.correct_note_with Obsidian.loader_load "A" "C" "new text"
      two_notes_loaded in
  Obsidian.vault after.2 !! "C.md" = Some "new text" ∧
  Obsidian.inspect_notes_with Obsidian.loader_load after.2
  = (Ok (Obsidian.notes_of (Obsidian.loader_load (Obsidian.vault after.2))),
     after.2).
Proof.
  apply (corrected_note_is_listed Obsidian.loader_load two_notes_loaded "A" "C"
           "new text").
  - reflexivity.
  - reflexivity.
  - exists "old text". vm_compute. reflexivity.
  - right. vm_compute. reflexivity.
Defined.

(** ** Titles, files and the notes listed *)

Lemma length_app (t u : string) :
  String.length (t +:+ u) = (String.length t + String.length u)%nat.
Proof. induction t as [|c t IH]; [done|]. simpl. by rewrite <- IH. Qed.

Lemma substring_app_head t u : String.substring 0 (String.length t) (t +:+ u) = t.
Proof.
  induction t as [|c t IH]; [by destruct u|].
  change (String c t +:+ u) with (String c (t +:+ u)). simpl. by rewrite IH.
Qed.

Lemma rfind_app_last c t u :
  Obsidian.rfind c u = None →
  Obsidian.rfind c (t +:+ String c u) = Some (String.length t).
Proof.
  intros Hu. induction t as [|a t IH].
  - change (EmptyString +:+ String c u) with (String c u). simpl.
    by rewrite Hu, Ascii.eqb_refl.
  - change (String a t +:+ String c u) with (String a (t +:+ String c u)).
    simpl. by rewrite IH.
Qed.

(** The stem of a path whose name is "<t>.md", for a title that is not
    empty. *)
Lemma stem_of_note_file p t :
  t ≠ EmptyString → Obsidian.path_name p = t +:+ ".md" → Obsidian.stem p = t.
Proof.
  intros Hne Hname. unfold Obsidian.stem. rewrite Hname.
  change (t +:+ ".md") with (t +:+ String "." "md").
  rewrite rfind_app_last by done.
  rewrite length_app. simpl String.length.
  replace ((0 <? String.length t) && (String.length t <? String.length t + 3 - 1))%nat
    with true.
  - apply substring_app_head.
  - symmetry. apply andb_true_iff. split; apply Nat.ltb_lt; [|lia].
    destruct t; [done|simpl; lia].
Qed.

(** X12.  A note is listed under the stem of the name of its file, without
    the folder it is in; [correct_note] looks for "<title>.md" in the vault
    directory itself.  So for a document of the loader whose source is named
    "<t>.md" while nothing in the vault directory has that name (a note kept
    in a folder), [load_notes] lists the note under the title t, and
    [correct_note] with that title answers "not found" and changes nothing. *)
Theorem subfolder_note_listed_not_found loader s doc t :
  plain_title t = true →
  t ≠ EmptyString →
  startswith t "." = false →
  doc ∈ loader (Obsidian.vault s) →
  Obsidian.path_name (Obsidian.source doc) = t +:+ ".md" →
  free_name (Obsidian.vault s) (t +:+ ".md") = true →
  (∃ notes,
     (Obsidian.load_notes_with loader true s).1 = Ok notes ∧
     Obsidian.MkNote t (Obsidian.page_content doc) ∈ notes) ∧
  ∀ new_note_title new_note_content,
    Obsidian.correct_note_with loader t new_note_title new_note_content s
    = (Ok ("Error: '" +:+ t +:+ "' not found"), s).
Proof.
  intros _ Hne _ Hdoc Hname Hroot%free_name_absent. split.
  - rewrite load_notes_rebuild_with by by right.
    eexists. split; [done|].
    unfold Obsidian.notes_of. apply list_elem_of_fmap. exists doc.
    split; [|done].
    rewrite (stem_of_note_file _ t) by done.
    apply String.eqb_neq in Hne. by rewrite Hne.
  - intros. by apply correct_note_missing_with.
Qed.

Lemma subfolder_note_listed_not_found_witness :
  (∃ notes,
     (Obsidian.load_notes_with Obsidian.loader_load true nested_store).1 = Ok notes ∧
     Obsidian.MkNote "A" "deep" ∈ notes) ∧
  ∀ new_note_title new_note_content,
    Obsidian.correct_note_with Obsidian.loader_load "A" new_note_title
      new_note_content nested_store
    = (Ok "Error: 'A' not found", nested_store).
Proof.
  apply (subfolder_note_listed_not_found Obsidian.loader_load nested_store
           (Obsidian.MkDocument "sub/A.md" "deep") "A").
  - reflexivity.
  - discriminate.
  - reflexivity.
  - vm_compute. apply list_elem_of_here.
  - reflexivity.
  - vm_compute. reflexivity.
Defined.

(** ** The excerpt shown at the prompt *)





(** ** The drivers at the edges *)

(** X14.  In the email and SQL drivers, a result whose "__interrupt__" list
    is empty, or whose last interrupt carries no request, makes the loop raise
    [IndexError] at once: nothing is printed, nothing is asked, and
    [agent.invoke] is not called again. *)
Theorem drivers_index_error :
  (∀ AgentState agent_invoke rounds msgs interrupts w,
     Email.main_loop AgentState agent_invoke (S rounds) (MkResult (Some []) msgs) w
     = (Raise IndexError, w) ∧
     Email.main_loop AgentState agent_invoke (S rounds)
       (MkResult (Some (interrupts ++ [MkInterrupt []])) msgs) w
     = (Raise IndexError, w)) ∧
  (∀ preview AgentState agent_invoke the_db rounds msgs interrupts w,
     Sql.main_loop preview AgentState agent_invoke the_db (S rounds)
       (MkResult (Some []) msgs) w
     = (Raise IndexError, w) ∧
     Sql.main_loop preview AgentState agent_invoke the_db (S rounds)
       (MkResult (Some (interrupts ++ [MkInterrupt []])) msgs) w
     = (Raise IndexError, w)).
Proof.
  split; intros; (split; [done|]); simpl;
    unfold mbind, M_bind, bind, Email.index_last, Sql.index_last;
    by rewrite last_snoc_item.
Qed.

Lemma email_loop_shrinks py lines : ∀ out,
  length (stdin (Email.decision_loop_with py lines out).2) ≤ length lines.
Proof.
  induction lines as [|line lines IH]; intros out; simpl; [done|].
  repeat (match goal with
          | |- context [str_in ?x ?l] => destruct (str_in x l)
          end); simpl; try lia.
  etrans; [apply IH|lia].
Qed.

Lemma email_prompt_shrinks received_email email c :
  length (stdin (Email.get_user_decision received_email email c).2)
  ≤ length (stdin c).
Proof.
  unfold Email.get_user_decision, Email.get_user_decision_with.
  apply email_loop_shrinks.
Qed.

Section EmailLines.

Context {AgentState : Type} (agent_invoke : Input → M AgentState InvokeResult).

Lemma email_main_loop_lines rounds : ∀ result w,
  ∃ new,
    Email.calls (Email.main_loop AgentState agent_invoke rounds result w).2
    = Email.calls w ++ new ∧
    length (resume_batches new)
    + length (stdin (Email.console
                       (Email.main_loop AgentState agent_invoke rounds result w).2))
    ≤ length (stdin (Email.console w)).
Proof.
  induction rounds as [|rounds IH]; intros result w; simpl;
    destruct (interrupt result) as [interrupts|] eqn:Hi;
    try (exists []; rewrite app_nil_r; simpl; split; [done|lia]).
  unfold mbind, M_bind, bind, Email.index_last, last_item.
  destruct (last interrupts) as [last_interrupt|];
    [|exists []; rewrite app_nil_r; simpl; split; [done|lia]].
  simpl.
  destruct (last (action_requests last_interrupt)) as [action_request|];
    [|exists []; rewrite app_nil_r; simpl; split; [done|lia]].
  simpl. unfold Email.on_console.
  match goal with
  | |- context [Email.get_user_decision ?re ?em (Email.console w)] =>
      pose proof (email_prompt_shrinks re em (Email.console w)) as Hle;
      destruct (Email.get_user_decision re em (Email.console w))
        as [[v|e] c'] eqn:Hg
  end; simpl in Hle;
    [|exists []; rewrite app_nil_r; simpl; split; [done|lia]].
  apply email_prompt_consumes in Hg.
  unfold Email.invoke. simpl.
  destruct (agent_invoke _ (Email.agent w)) as [[res|e] a] eqn:Ha.
  - destruct (IH res (Email.MkWorld c' a
                (Email.calls w ++ [(Resume [ {[ "type" := v ]} ], Ok res)])))
      as (new & Hc & Hn).
    exists ((Resume [ {[ "type" := v ]} ], Ok res) :: new).
    rewrite Hc. simpl. rewrite <- app_assoc. split; [done|].
    simpl in Hn. lia.
  - exists [(Resume [ {[ "type" := v ]} ], Raise e)]. split; [done|]. simpl. lia.
Qed.

Lemma email_main_lines rounds w :
  ∃ r new,
    Email.calls (Email.main AgentState agent_invoke rounds w).2
    = Email.calls w ++ (Start [MkMessage HumanMessage None Email.prompt], r) :: new ∧
    length (resume_batches new)
    + length (stdin (Email.console (Email.main AgentState agent_invoke rounds w).2))
    ≤ length (stdin (Email.console w)).
Proof.
  unfold Email.main, mbind, M_bind, bind. simpl. unfold Email.invoke. simpl.
  destruct (agent_invoke _ (Email.agent w)) as [[res|e] a] eqn:Ha;
    [|exists (Raise e), []; simpl; split; [done|lia]].
  match goal with
  | |- context [Email.main_loop _ _ rounds res ?w'] =>
      destruct (email_main_loop_lines rounds res w') as (new & Hc & Hn);
      destruct (Email.main_loop _ _ rounds res w') as [[[final|]|e] w1] eqn:Hl
  end; simpl in Hc, Hn; exists (Ok res), new; rewrite <- app_assoc in Hc;
    (split; [|simpl; try lia]); try done.
  - simpl. by destruct (messages final) as [[|m ms]|].
  - by destruct (messages final) as [[|m ms]|]; simpl; lia.
Qed.

End EmailLines.

(** X15.  The email driver resumes at most once per line typed: the number
    of resumes issued by [main], plus the number of lines left unread on the
    terminal, never exceeds the number of lines there were. *)
Theorem email_one_resume_per_line AgentState agent_invoke rounds
    (w : Email.World AgentState) :
  Email.calls w = [] →
  length (resume_batches
            (Email.calls (Email.main AgentState agent_invoke rounds w).2))
  + length (stdin (Email.console (Email.main AgentState agent_invoke rounds w).2))
  ≤ length (stdin (Email.console w)).
Proof.
  intros Hw.
  destruct (email_main_lines agent_invoke rounds w) as (r & new & Hc & Hn).
  rewrite Hc, Hw. simpl. exact Hn.
Qed.

Lemma email_one_resume_per_line_witness :
  length (resume_batches
            (Email.calls
               (Email.main _ scripted 5
                  (email_world one_request_script ["?"; "y"; "n"])).2))
  + length (stdin (Email.console
                     (Email.main _ scripted 5
                        (email_world one_request_script ["?"; "y"; "n"])).2))
  ≤ 3.
Proof.
  apply (email_one_resume_per_line _ scripted 5
           (email_world one_request_script ["?"; "y"; "n"])).
  reflexivity.
Defined.

(** X16.  When the terminal is closed before a valid answer is typed, the
    lines typed being ASCII text, the email driver stops on [EOFError]: the
    pending request is neither approved nor rejected, and [agent.invoke] is
    not called again. *)
Theorem email_eof_stops_driver AgentState agent_invoke rounds
    interrupts requests request msgs (w : Email.World AgentState) :
  Forall (λ line, ascii_text line = true) (stdin (Email.console w)) →
  first_valid ascii_str (stdin (Email.console w)) = None →
  let after :=
    Email.main_loop AgentState agent_invoke (S rounds)
      (MkResult (Some (interrupts ++ [MkInterrupt (requests ++ [request])])) msgs) w in
  after.1 = Raise EOFError ∧
  Email.calls after.2 = Email.calls w ∧
  Email.agent after.2 = Email.agent w.
Proof.
  intros _ Hnone. cbv zeta. simpl.
  unfold mbind, M_bind, bind, Email.index_last.
  rewrite last_snoc_item. simpl. rewrite last_snoc_item. simpl.
  unfold Email.on_console.
  match goal with
  | |- context [Email.get_user_decision ?re ?em (Email.console w)] =>
      assert ((Email.get_user_decision re em (Email.console w)).1
              = Raise EOFError) as Hr;
      [ transitivity (prompt_outcome ascii_str (stdin (Email.console w)));
        [apply email_loop_outcome | unfold prompt_outcome; by rewrite Hnone]
      | destruct (Email.get_user_decision re em (Email.console w)) as [r c'] ]
  end.
  simpl in Hr. subst r. done.
Qed.

Lemma email_eof_stops_driver_witness :
  (Email.main_loop _ scripted 1
     (MkResult (Some [MkInterrupt [send_to "mark"]]) (Some []))
     (email_world [final_result] ["maybe"])).1
  = Raise EOFError.
Proof.
  apply (email_eof_stops_driver _ scripted 0 [] [] (send_to "mark") (Some [])
           (email_world [final_result] ["maybe"])).
  - repeat constructor.
  - reflexivity.
Defined.

(** X17.  The [for] loop of the Obsidian driver resumes once for every
    request of the interrupt it started from: when it ends normally it has
    called [agent.invoke] exactly as many times as there were requests,
    whatever the results returned in between (also when one of them reported
    no interrupt any more). *)
Theorem obsidian_one_resume_per_request AgentState agent_invoke vault_of
    requests result (w : Obsidian.World AgentState) res w' :
  Obsidian.for_requests AgentState agent_invoke vault_of requests result w
  = (Ok res, w') →
  ∃ new,
    Obsidian.calls w' = Obsidian.calls w ++ new ∧
    length new = length requests ∧
    Forall (λ c : Call, ∃ ds r, c = (Resume ds, Ok r)) new.
Proof.
  revert result w res w'.
  induction requests as [|request requests IH]; intros result w res w'; simpl.
  { intros [= <- <-]. exists []. by rewrite app_nil_r. }
  unfold mbind, M_bind, bind, Obsidian.read_note, Obsidian.on_console. simpl.
  destruct (Obsidian.ask _ _ _ _ (Obsidian.console w)) as [[v|e] c']; [|done].
  unfold Obsidian.invoke. simpl.
  destruct (agent_invoke _ (Obsidian.agent w)) as [[res1|e] a]; [|done].
  intros (new & Hc & Hlen & Hall)%IH. simpl in Hc.
  exists ((Resume [ {[ "type" := v ]} ], Ok res1) :: new).
  rewrite Hc, <- app_assoc. split; [done|]. split; [simpl; by rewrite Hlen|].
  constructor; eauto.
Qed.

Lemma obsidian_one_resume_per_request_witness :
  ∃ new,
    Obsidian.calls
      (Obsidian.for_requests _ scripted_vault snd [correct "A"; correct "B"]
         final_result (obsidian_world [final_result; final_result] ["y"; "n"])).2
    = [] ++ new ∧
    length new = 2%nat ∧
    Forall (λ c : Call, ∃ ds r, c = (Resume ds, Ok r)) new.
Proof.
  eapply (obsidian_one_resume_per_request _ scripted_vault snd
            [correct "A"; correct "B"] final_result
            (obsidian_world [final_result; final_result] ["y"; "n"])).
  vm_compute. reflexivity.
Defined.

(** X18.  In the Obsidian driver, a result whose last interrupt carries no
    request makes the [while] loop spin: a round asks nothing, calls nothing
    and leaves the result as it was, so the loop is still running after any
    number of rounds. *)
Theorem obsidian_empty_interrupt_spins AgentState agent_invoke vault_of
    rounds interrupts msgs (w : Obsidian.World AgentState) :
  Obsidian.main_loop AgentState agent_invoke vault_of rounds
    (MkResult (Some (interrupts ++ [MkInterrupt []])) msgs) w
  = (Ok None, w).
Proof.
  induction rounds as [|rounds IH]; [done|].
  simpl. unfold mbind, M_bind, bind, Obsidian.index_last.
  rewrite last_snoc_item. simpl. apply IH.
Qed.

(** X19.  In the Obsidian driver, a request without the key
    "new_note_content" stops [main] with [TypeError] once the titles are
    printed: no decision is asked and [agent.invoke] is not called. *)
Theorem obsidian_missing_content_raises AgentState agent_invoke vault_of
    request rest result (w : Obsidian.World AgentState) :
  args request !! "new_note_content" = None →
  let after :=
    Obsidian.for_requests AgentState agent_invoke vault_of
      (request :: rest) result w in
  after.1 = Raise (TypeError "object of type 'NoneType' has no len()") ∧
  Obsidian.calls after.2 = Obsidian.calls w ∧
  Obsidian.agent after.2 = Obsidian.agent w ∧
  stdin (Obsidian.console after.2) = stdin (Obsidian.console w).
Proof.
  intros Hnone. cbv zeta. simpl.
  unfold mbind, M_bind, bind, Obsidian.read_note, Obsidian.on_console. simpl.
  rewrite Hnone. done.
Qed.

Lemma obsidian_missing_content_raises_witness :
  (Obsidian.for_requests _ scripted_vault snd [correct_without_content]
     final_result (obsidian_world [final_result] ["y"])).1
  = Raise (TypeError "object of type 'NoneType' has no len()").
Proof.
  apply (obsidian_missing_content_raises _ scripted_vault snd
           correct_without_content [] final_result
           (obsidian_world [final_result] ["y"])).
  vm_compute. reflexivity.
Defined.



(** X21.  The email driver cannot loop for ever on a terminal with finitely
    many lines: every round of its loop reads at least one line, so [main]
    ends (normally or with an exception) within as many rounds as there are
    lines, plus one. *)
Theorem email_driver_terminates AgentState agent_invoke rounds
    (w : Email.World AgentState) :
  length (stdin (Email.console w)) < rounds →
  (Email.main AgentState agent_invoke rounds w).1 ≠ Ok None.
Proof. apply email_main_bound. Qed.

Lemma email_driver_terminates_witness :
  (Email.main _ scripted 2 (email_world one_request_script ["y"])).1 ≠ Ok None.
Proof.
  apply (email_driver_terminates _ scripted 2 (email_world one_request_script ["y"])).
  simpl. lia.
Defined.
